(** * pymel: the scroll-field reporter plug-in and the environment helpers

    A shallow embedding of

    - [misc/pymelScrollFieldReporter.py]: the [Reporter] class, the
      [ReporterDict] registry, the command-output callback [cmdCallback],
      the plug-in command [scriptedCommand.doIt] and the unloading of the
      plug-in;
    - [pymel/util/shell.py]: the environment helpers and the two
      process-output functions;
    - [_addEnv] of [util/__init__.py].

    Python strings are [string]; dictionaries with string keys are
    [gmap string _], or, where they are iterated, association lists that
    record the order in which the keys were stored. The sources are
    Python 2, where the order in which a dictionary is iterated is the hash
    table's: it is a parameter, [pyItems], of which only this is known, that
    it lists every item once. Module-level variables are fields of one
    state record, and the host application is an abstract transition
    system. *)

From Stdlib Require Import ZArith Ascii String.
From stdpp Require Import gmap strings list fin_maps.

Local Open Scope Z_scope.

(* ===================================================================== *)
(** ** Python string primitives used by the sources *)
(* ===================================================================== *)

Module PyStr.

(** [s.split(sep)] for a one-character separator: never the empty list. *)
Fixpoint split (sep : ascii) (s : string) : list string :=
  match s with
  | EmptyString => [EmptyString]
  | String a s' =>
      if decide (a = sep) then EmptyString :: split sep s'
      else match split sep s' with
           | h :: t => String a h :: t
           | [] => [String a EmptyString]
           end
  end.

(** [sep.join(l)]. *)
Fixpoint join (sep : string) (l : list string) : string :=
  match l with
  | [] => EmptyString
  | [x] => x
  | x :: rest => x +:+ sep +:+ join sep rest
  end.

(** [s.rfind(c)] for a one-character needle: the highest index holding
    [c], or [-1]. *)
Fixpoint rfind (c : ascii) (s : string) : Z :=
  match s with
  | EmptyString => -1
  | String a s' =>
      let r := rfind c s' in
      if 0 <=? r then r + 1
      else if decide (a = c) then 0 else -1
  end.

(** [len(s)] as a Python integer. *)
Definition len (s : string) : Z := Z.of_nat (String.length s).

(** [c in s] for a character. *)
Fixpoint occurs (c : ascii) (s : string) : bool :=
  match s with
  | EmptyString => false
  | String a s' => bool_decide (a = c) || occurs c s'
  end.

(** [l[start:]], with Python's treatment of negative and overlong
    starts. *)
Definition slice_from {A} (start : Z) (l : list A) : list A :=
  let n := Z.of_nat (length l) in
  let st := if start <? 0 then Z.max 0 (start + n) else Z.min start n in
  drop (Z.to_nat st) l.

(** [prefix.startswith] is [String.prefix] of the standard library:
    [s.startswith(p)] is [String.prefix p s]. *)

(** [s.endswith(suffix)]. *)
Fixpoint endswith (suffix s : string) : bool :=
  if bool_decide (s = suffix) then true
  else match s with
       | EmptyString => false
       | String _ s' => endswith suffix s'
       end.

(** The first [n] characters of [s]. *)
Fixpoint take_chars (n : nat) (s : string) : string :=
  match n, s with
  | S n', String a s' => String a (take_chars n' s')
  | _, _ => EmptyString
  end.


(** [s[:stop]], with Python's treatment of negative and overlong stops. *)
Definition slice_to (stop : Z) (s : string) : string :=
  let n := len s in
  let st := if stop <? 0 then Z.max 0 (stop + n) else Z.min stop n in
  take_chars (Z.to_nat st) s.

(** [s.replace(old, new)] for a non-empty [old]: occurrences are found
    left to right and do not overlap. [skip] counts the characters of a
    match that are still to be passed over. *)
Fixpoint replace_go (old new : string) (skip : nat) (s : string) : string :=
  match s with
  | EmptyString => EmptyString
  | String a s' =>
      match skip with
      | S k => replace_go old new k s'
      | O =>
          if String.prefix old s
          then new +:+ replace_go old new (String.length old - 1) s'
          else String a (replace_go old new 0 s')
      end
  end.

(** [s.replace(old, new)]; with an empty [old] Python puts [new] before
    every character and at the end. *)
Fixpoint intersperse (new s : string) : string :=
  match s with
  | EmptyString => new
  | String a s' => new +:+ String a (intersperse new s')
  end.

Definition replace (old new s : string) : string :=
  if bool_decide (old = EmptyString) then intersperse new s
  else replace_go old new 0 s.

(** [s.splitlines()] for a byte string: lines end at ["\n"], ["\r"] or
    ["\r\n"], and a final line end adds no empty line. *)
Fixpoint splitlines (s : string) : list string :=
  match s with
  | EmptyString => []
  | String c s' =>
      if bool_decide (c = "010"%char) then EmptyString :: splitlines s'
      else if bool_decide (c = "013"%char) then
        match s' with
        | String d s'' =>
            if bool_decide (d = "010"%char) then EmptyString :: splitlines s''
            else EmptyString :: splitlines s'
        | EmptyString => [EmptyString]
        end
      else match splitlines s' with
           | [] => [String c EmptyString]
           | h :: t => String c h :: t
           end
  end.

(** [s.split(sep, 1)] when [sep] occurs in [s]: the text before the first
    [sep] and the text after it; [None] when [sep] does not occur (Python
    returns the one-element list [[s]]). *)
Fixpoint split_once (sep : ascii) (s : string) : option (string * string) :=
  match s with
  | EmptyString => None
  | String a s' =>
      if decide (a = sep) then Some (EmptyString, s')
      else match split_once sep s' with
           | Some (before, after) => Some (String a before, after)
           | None => None
           end
  end.

End PyStr.

(* ===================================================================== *)
(** ** pymel/util/shell.py *)
(* ===================================================================== *)

Module Shell.
Section Env.

(** [os.path.pathsep]: [":"] on osx and linux, [";"] on windows. *)
Variable pathsep : ascii.

Definition sep : string := String pathsep EmptyString.

(** [os.environ] is a [gmap string string]. *)

Definition appendEnv (env value : string) (e : gmap string string)
  : gmap string string :=
  match e !! env with
  | None => <[env := value]> e
  | Some old =>
      let splitEnv := PyStr.split pathsep old in
      if decide (value ∈ splitEnv) then e
      else <[env := PyStr.join sep (splitEnv ++ [value])]> e
  end.

Definition prependEnv (env value : string) (e : gmap string string)
  : gmap string string :=
  match e !! env with
  | None => <[env := value]> e
  | Some old =>
      let splitEnv := PyStr.split pathsep old in
      if decide (value ∈ splitEnv) then e
      else <[env := PyStr.join sep (value :: splitEnv)]> e
  end.

(** [getEnv]. *)
Definition getEnv (env : string) (default : option string)
    (e : gmap string string) : option string :=
  match e !! env with
  | Some v => Some v
  | None => default
  end.

(** [getEnvs]; [default] is [None] or a list. *)
Definition getEnvs (env : string) (default : option (list string))
    (e : gmap string string) : list string :=
  match e !! env with
  | Some v => PyStr.split pathsep v
  | None =>
      match default with
      | None => []
      | Some d => d
      end
  end.

(** The values [putEnv] accepts: a string, or a non-string iterable (a
    list or tuple) of strings, for which [_isIterable] is true. *)
Inductive EnvValue :=
| VString (v : string)
| VList (l : list string).

Definition putEnv (env : string) (value : EnvValue) (e : gmap string string)
  : gmap string string :=
  match value with
  | VList l => <[env := PyStr.join sep l]> e
  | VString v => <[env := v]> e
  end.

(** [_addEnv] of [util/__init__.py]: like [appendEnv], without the test
    for a value that is already there. *)
Definition _addEnv (env value : string) (e : gmap string string)
  : gmap string string :=
  match e !! env with
  | None => <[env := value]> e
  | Some old => <[env := PyStr.join sep (PyStr.split pathsep old ++ [value])]> e
  end.

End Env.

Section Process.

(** [os.linesep], whether [os.name] is ['posix'], and what
    [subprocess.Popen(exeAndArgs, stdout=PIPE, stderr=STDOUT, shell=...)]
    followed by [communicate()[0]] gives for a command. *)
Variable linesep : string.
Variable posix : bool.
Variable communicate : string + list string -> bool -> string.

(** [executableOutput], called without [stdout] or [stderr] keywords;
    [shell] is the [shell] keyword passed on to [Popen]. *)
Definition executableOutput (exeAndArgs : string + list string)
    (convertNewlines stripTrailingNewline shell : bool) : string :=
  let cmdOutput := communicate exeAndArgs shell in
  let cmdOutput :=
    if stripTrailingNewline && PyStr.endswith linesep cmdOutput
    then PyStr.slice_to (- Z.of_nat (String.length linesep)) cmdOutput
    else cmdOutput in
  if convertNewlines
  then PyStr.replace linesep (String "010"%char EmptyString) cmdOutput
  else cmdOutput.

(** [shellOutput]. *)
Definition shellOutput (shellCommand : string)
    (convertNewlines stripTrailingNewline : bool) : string :=
  executableOutput (inl shellCommand) convertNewlines stripTrailingNewline true.

(** One turn of the loop of [refreshEnviron]. *)
Definition refreshLine (e : gmap string string) (line : string)
  : gmap string string :=
  if PyStr.occurs "=" line then
    match PyStr.split_once "=" line with
    | Some (var, val) =>
        if negb (String.prefix "_" var)
           && negb (bool_decide (var ∈ ["SHLVL"%string]))
        then <[var := val]> e
        else e
    | None => e
    end
  else e.

(** A line that makes [refreshEnviron] assign [val] to [var]. *)
Definition assigns (line var val : string) : Prop :=
  PyStr.split_once "=" line = Some (var, val)
  /\ String.prefix "_" var = false /\ var <> "SHLVL"%string.

(** [refreshEnviron]. *)
Definition refreshEnviron (e : gmap string string) : gmap string string :=
  let cmd := if posix then "/usr/bin/env"%string else "set"%string in
  let cmdOutput := shellOutput cmd true true in
  foldl refreshLine e (PyStr.splitlines cmdOutput).

End Process.
End Shell.

(* ===================================================================== *)
(** ** misc/pymelScrollFieldReporter.py: data *)
(* ===================================================================== *)

Module Reporter.

(** The Python values that occur in filter dictionaries, flag arguments
    and command results. *)
Inductive pyval :=
| PNone
| PBool (b : bool)
| PStr (s : string).

#[global] Instance pyval_eq_dec : EqDecision pyval.
Proof. solve_decision. Defined.

(** Python truth value. *)
Definition truthy (v : pyval) : bool :=
  match v with
  | PNone => false
  | PBool b => b
  | PStr s => negb (bool_decide (s = EmptyString))
  end.

(** [OpenMaya.MCommandMessage.MessageType], the host's enumeration of
    command-output kinds, in the host's declaration order. *)
Inductive MessageType :=
| kHistory | kDisplay | kInfo | kWarning | kError | kResult | kStackTrace.

#[global] Instance MessageType_eq_dec : EqDecision MessageType.
Proof. solve_decision. Defined.

(** The integer behind each enumerator, used as a list index. *)
Definition mt_value (t : MessageType) : nat :=
  match t with
  | kHistory => 0 | kDisplay => 1 | kInfo => 2 | kWarning => 3
  | kError => 4 | kResult => 5 | kStackTrace => 6
  end%nat.

Definition kPluginCmdName : string := "pymelScrollFieldReporter".
Definition kClear : string * string := ("clear", "clr")%string.
Definition kText : string * string := ("text", "t")%string.
Definition kCmdReporter : string * string := ("cmdReporter", "cr")%string.
Definition kMel : string := "mel".
Definition kPython : string := "python".

(** [OpenMaya.MSyntax] argument types used by the flag tables. *)
Inductive MSyntaxType := kBoolean | kString.

(** [filterFlags] and [globalFilterFlags]: long name, (short name, type,
    default), listed in source order, the order in which the dictionary
    displays store them. The order of [filterFlags.items()] is [pyItems] of
    this list. *)
Definition filterFlags : list (string * (string * MSyntaxType * pyval)) :=
  [ ("convertToPython",    ("ctp", kBoolean, PBool false));
    ("filterSourceType",   ("fst", kString,  PStr ""));
    ("suppressPrintouts",  ("spo", kBoolean, PBool false));
    ("suppressInfo",       ("si",  kBoolean, PBool false));
    ("suppressWarnings",   ("sw",  kBoolean, PBool false));
    ("suppressErrors",     ("se",  kBoolean, PBool false));
    ("suppressResults",    ("sr",  kBoolean, PBool false));
    ("suppressStackTrace", ("sst", kBoolean, PBool false)) ]%string.

Definition globalFilterFlags : list (string * (string * MSyntaxType * pyval)) :=
  [ ("echoAllCommands", ("eac", kBoolean, PBool false));
    ("lineNumbers",     ("ln",  kBoolean, PBool false));
    ("stackTrace",      ("st",  kBoolean, PBool false)) ]%string.

Definition filterFlagNames : list string :=
  [ ""; "suppressPrintouts"; "suppressInfo"; "suppressWarnings";
    "suppressErrors"; "suppressResults"; "suppressStackTrace" ]%string.

(** One buffered line: [[messageType, sourceType, nativeMsg, convertedMsg]]. *)
Record Line := mkLine {
  l_messageType : MessageType;
  l_sourceType : option string;
  l_nativeMsg : string;
  l_convertedMsg : option string
}.

#[global] Instance Line_eq_dec : EqDecision Line.
Proof. solve_decision. Defined.

(** A [Reporter] object. *)
Record Reporter := mkReporter {
  name : string;
  filters : gmap string pyval;
  history : list Line
}.

(** A command-output message as the host hands it to the callback:
    [(nativeMsg, messageType)]. *)
Definition Msg : Type := string * MessageType.

(** The parts of the program's surroundings that are not in this module:
    the host application behind [OpenMaya], the file system behind [open],
    the two imported helpers, and the order in which the Python interpreter
    iterates a dictionary. *)
Class Host := {
  (** the host's own state *)
  H : Type;
  (** [MGlobal.executeCommand] and [MGlobal.executeCommandStringResult]:
      the host's next state, the command-output messages it emits while
      the command runs, and the command's string result ([None] when the
      call raises). *)
  hostExecute : H -> string -> H * list Msg * option string;
  (** [MCommandMessage.addCommandOutputCallback]: the new callback id, or
      [None] when the call raises. *)
  hostAddCallback : H -> H * option Z;
  (** [open(path, 'a')], [write], [close]: [None] when it raises. *)
  hostFileAppend : H -> string -> string -> option H;
  (** [pymel.mel2py.mel2pyStr]: [None] when it raises. *)
  mel2pyStr : string -> option string;
  (** [maya.cmds.encodeString]. *)
  encodeString : string -> string;
  (** [d.items()] for a dictionary with string keys whose keys were first
      stored in the order of the given list: the same items, in the order
      the interpreter's hash table gives them. Nothing is assumed of that
      order. [d.values()] goes through the items in the same order. *)
  pyItems : forall V : Type, list (string * V) -> list (string * V);
  pyItems_perm : forall (V : Type) (l : list (string * V)), pyItems V l ≡ₚ l
}.
Arguments pyItems {_ V} l.
Arguments pyItems_perm {_ V} l.

Inductive exn :=
| KeyError | IndexError | TypeError | RuntimeError | UnboundLocalError | IOError.

(** How a call ends: a value, a Python exception, or one of the two ways
    the model itself can give up (recursion budget spent, or a reference
    to an object that was never allocated). *)
Inductive outcome (A : Type) :=
| Ok (a : A)
| Raise (e : exn)
| OutOfFuel
| Dangling.
Arguments Ok {A} a.
Arguments Raise {A} e.
Arguments OutOfFuel {A}.
Arguments Dangling {A}.

(** Module-level and class-level variables, the object store, and what
    the host has been asked to do. *)
Record State `{Host} := mkState {
  callbackState : bool;
  sourceType : option string;
  messageId : Z;
  messageIdSet : bool;
  globalFilters : gmap string pyval;   (* Reporter.globalFilters *)
  cmdReporter : pyval;                 (* Reporter.cmdReporter *)
  heap : list Reporter;                (* Reporter objects, by address *)
  reporters : list (string * nat);     (* the ReporterDict: key, address, in the
                                          order the keys were first stored *)
  host : H;
  issued : list string;                (* commands given to MGlobal, oldest first *)
  callbacks : list Z                   (* ids of the installed output callbacks *)
}.

(* ===================================================================== *)
(** ** State and exceptions: a small monad *)
(* ===================================================================== *)

Section Operations.
Context `{Host}.

Definition M (A : Type) : Type := State -> outcome A * State.

Definition ret {A} (a : A) : M A := fun s => (Ok a, s).

Definition bind {A B} (m : M A) (k : A -> M B) : M B :=
  fun s =>
    match m s with
    | (Ok a, s') => k a s'
    | (Raise e, s') => (Raise e, s')
    | (OutOfFuel, s') => (OutOfFuel, s')
    | (Dangling, s') => (Dangling, s')
    end.

Definition raise {A} (e : exn) : M A := fun s => (Raise e, s).
Definition get : M State := fun s => (Ok s, s).
Definition modify (f : State -> State) : M unit := fun s => (Ok tt, f s).

(** A pure computation that may raise. *)
Definition lift {A} (o : outcome A) : M A := fun s => (o, s).

Notation "'let!' x ':=' m 'in' k" := (bind m (fun x => k))
  (at level 10, x name, m at level 100, k at level 200).
Notation "m ';;' k" := (bind m (fun _ => k))
  (at level 100, k at level 200, right associativity).

(** Assignments to the module-level variables. *)
Definition set_callbackState (b : bool) (s : State) : State :=
  mkState _ b (sourceType s) (messageId s) (messageIdSet s) (globalFilters s)
    (cmdReporter s) (heap s) (reporters s) (host s) (issued s) (callbacks s).
Definition set_sourceType (v : option string) (s : State) : State :=
  mkState _ (callbackState s) v (messageId s) (messageIdSet s) (globalFilters s)
    (cmdReporter s) (heap s) (reporters s) (host s) (issued s) (callbacks s).
Definition set_messageId (v : Z) (s : State) : State :=
  mkState _ (callbackState s) (sourceType s) v (messageIdSet s) (globalFilters s)
    (cmdReporter s) (heap s) (reporters s) (host s) (issued s) (callbacks s).
Definition set_messageIdSet (v : bool) (s : State) : State :=
  mkState _ (callbackState s) (sourceType s) (messageId s) v (globalFilters s)
    (cmdReporter s) (heap s) (reporters s) (host s) (issued s) (callbacks s).
Definition set_globalFilters (v : gmap string pyval) (s : State) : State :=
  mkState _ (callbackState s) (sourceType s) (messageId s) (messageIdSet s) v
    (cmdReporter s) (heap s) (reporters s) (host s) (issued s) (callbacks s).
Definition set_cmdReporter (v : pyval) (s : State) : State :=
  mkState _ (callbackState s) (sourceType s) (messageId s) (messageIdSet s)
    (globalFilters s) v (heap s) (reporters s) (host s) (issued s) (callbacks s).
Definition set_heap (v : list Reporter) (s : State) : State :=
  mkState _ (callbackState s) (sourceType s) (messageId s) (messageIdSet s)
    (globalFilters s) (cmdReporter s) v (reporters s) (host s) (issued s) (callbacks s).
Definition set_reporters (v : list (string * nat)) (s : State) : State :=
  mkState _ (callbackState s) (sourceType s) (messageId s) (messageIdSet s)
    (globalFilters s) (cmdReporter s) (heap s) v (host s) (issued s) (callbacks s).
Definition set_host (v : H) (s : State) : State :=
  mkState _ (callbackState s) (sourceType s) (messageId s) (messageIdSet s)
    (globalFilters s) (cmdReporter s) (heap s) (reporters s) v (issued s) (callbacks s).
Definition set_issued (v : list string) (s : State) : State :=
  mkState _ (callbackState s) (sourceType s) (messageId s) (messageIdSet s)
    (globalFilters s) (cmdReporter s) (heap s) (reporters s) (host s) v (callbacks s).
Definition set_callbacks (v : list Z) (s : State) : State :=
  mkState _ (callbackState s) (sourceType s) (messageId s) (messageIdSet s)
    (globalFilters s) (cmdReporter s) (heap s) (reporters s) (host s) (issued s) v.

(** Reading and writing the object at an address. *)
Definition getObj (a : nat) : M Reporter :=
  fun s => match heap s !! a with
           | Some r => (Ok r, s)
           | None => (Dangling, s)
           end.

Definition setObj (a : nat) (r : Reporter) : M unit :=
  fun s => if decide (a < length (heap s))%nat
           then (Ok tt, set_heap (<[a := r]> (heap s)) s)
           else (Dangling, s).

(** Object construction: the new object's address is the next free one. *)
Definition newObj (r : Reporter) : M nat :=
  fun s => (Ok (length (heap s)), set_heap (heap s ++ [r]) s).

(* ===================================================================== *)
(** ** String formatting *)
(* ===================================================================== *)

(** The double-quote and newline characters. *)
Definition dq : string := String "034"%char EmptyString.
Definition nl : string := String "010"%char EmptyString.

(** ['"%s"' % x]. *)
Definition quoted (x : string) : string := dq +:+ x +:+ dq.

(** [str(v)], as ['%s' % v] prints it. *)
Definition py_str (v : pyval) : string :=
  match v with
  | PNone => "None"
  | PBool true => "True"
  | PBool false => "False"
  | PStr s => s
  end.

(* ===================================================================== *)
(** ** class Reporter *)
(* ===================================================================== *)

(** [filterSourceType == sourceType], the comparison of a filter value
    with the module-level source type. *)
Definition eq_sourceType (v : pyval) (src : option string) : bool :=
  match v, src with
  | PNone, None => true
  | PStr a, Some b => bool_decide (a = b)
  | _, _ => false
  end.

(** [Reporter.lineFilter]: [Ok None] is the implicit [return None]. It
    reads [self.filters] only. *)
Definition lineFilter (flt : gmap string pyval) (line : Line)
  : outcome (option string) :=
  match flt !! "filterSourceType"%string with
  | None => Raise KeyError
  | Some filterSourceType =>
      if negb (truthy filterSourceType)
         || eq_sourceType filterSourceType (l_sourceType line)
      then
        match filterFlagNames !! mt_value (l_messageType line) with
        | None => Raise IndexError
        | Some flag =>
            if negb (truthy (default (PBool false) (flt !! flag)))
            then
              match flt !! "convertToPython"%string with
              | None => Raise KeyError
              | Some ctp =>
                  match l_convertedMsg line with
                  | Some converted =>
                      if truthy ctp then Ok (Some converted)
                      else Ok (Some (l_nativeMsg line))
                  | None => Ok (Some (l_nativeMsg line))
                  end
              end
            else Ok None
        end
      else Ok None
  end.

(** The loop of [Reporter.refreshHistory]: [output += lineFilter(line...)]
    under [except TypeError: pass], so adding [None] leaves [output] as it
    is. *)
Fixpoint refreshLoop (flt : gmap string pyval) (lines : list Line)
    (output : string) : outcome string :=
  match lines with
  | [] => Ok output
  | line :: rest =>
      match lineFilter flt line with
      | Ok (Some t) => refreshLoop flt rest (output +:+ t)
      | Ok None => refreshLoop flt rest output
      | Raise TypeError => refreshLoop flt rest output
      | Raise e => Raise e
      | OutOfFuel => OutOfFuel
      | Dangling => Dangling
      end
  end.

(** The defaults set by [Reporter.__init__]. *)
Definition defaultFilters : gmap string pyval :=
  list_to_map
    [ ("convertToPython", PBool false);
      ("filterSourceType", PStr "");
      ("suppressPrintouts", PBool false);
      ("suppressInfo", PBool false);
      ("suppressWarnings", PBool false);
      ("suppressErrors", PBool false);
      ("suppressResults", PBool false);
      ("suppressStackTrace", PBool false) ]%string.

Definition defaultGlobalFilters : gmap string pyval :=
  list_to_map
    [ ("echoAllCommands", PBool false);
      ("lineNumbers", PBool false);
      ("stackTrace", PBool false) ]%string.

(** [d.update(other)]: entries of [other] win. *)
Definition dict_update (d other : gmap string pyval) : gmap string pyval :=
  other ∪ d.

Section WithCallback.

(** What the host calls for each command-output message once the callback
    is installed: [cmdCallback], defined after the methods that it calls and
    that call the host. *)
Variable cb : Msg -> M unit.

(** The host invoking one Python callback: an exception raised inside it
    is reported by the host and goes no further. *)
Definition hostCall (c : M unit) : M unit :=
  fun s =>
    match c s with
    | (Raise _, s') => (Ok tt, s')
    | r => r
    end.

Fixpoint times (n : nat) (c : M unit) : M unit :=
  match n with
  | O => ret tt
  | S n' => c ;; times n' c
  end.

(** The host handing the messages of one command to every installed
    output callback. *)
Fixpoint deliver (msgs : list Msg) : M unit :=
  match msgs with
  | [] => ret tt
  | m :: rest =>
      let! s := get in
      times (length (callbacks s)) (hostCall (cb m)) ;;
      deliver rest
  end.

(** [OpenMaya.MGlobal.executeCommand] and [executeCommandStringResult]:
    the host runs the command, hands its output to the callbacks, and
    returns or raises. *)
Definition hostRun (cmd : string) : M string :=
  let! s := get in
  let '(h', msgs, res) := hostExecute (host s) cmd in
  modify (fun s => set_issued (issued s ++ [cmd]) (set_host h' s)) ;;
  deliver msgs ;;
  match res with
  | Some r => ret r
  | None => raise RuntimeError
  end.

(** [Reporter.executeCommand]: there is no [finally], so a raise leaves
    [callbackState] false. *)
Definition executeCommand (cmd : string) : M unit :=
  modify (set_callbackState false) ;;
  hostRun cmd ;;
  modify (set_callbackState true).

(** [Reporter.executeCommandResult]. *)
Definition executeCommandResult (cmd : string) : M string :=
  modify (set_callbackState false) ;;
  let! result := hostRun cmd in
  modify (set_callbackState true) ;;
  ret result.

(** The command texts that the methods format. *)
Definition insertTextCmd (output nm : string) : string :=
  "scrollField -e -insertText " +:+ quoted output +:+ " " +:+ quoted nm +:+ ";".

Definition textCmd (output nm : string) : string :=
  "scrollField -e -text " +:+ quoted output +:+ " " +:+ quoted nm +:+ ";".

Definition clearCmd (nm : string) : string :=
  "scrollField -e -clear " +:+ quoted nm +:+ ";".

Definition createCmd (nm : string) : string :=
  "scrollField -wordWrap false -editable false " +:+ quoted nm.

(** [Reporter.refreshHistory]; [self] is the object at address [a]. *)
Definition refreshHistory (a : nat) : M unit :=
  let! self := getObj a in
  let! output := lift (refreshLoop (filters self) (history self) "") in
  executeCommand (textCmd output (name self)).

(** [Reporter.appendHistory]. *)
Definition appendHistory (a : nat) (line : Line) : M unit :=
  let! self := getObj a in
  setObj a (mkReporter (name self) (filters self) (history self ++ [line])) ;;
  let! output := lift (lineFilter (filters self) line) in
  match output with
  | Some text => executeCommand (insertTextCmd text (name self))
  | None => ret tt
  end.

(** [Reporter.setFilters]. *)
Definition setFilters (a : nat) (flt : gmap string pyval) : M unit :=
  let! self := getObj a in
  setObj a (mkReporter (name self) (dict_update (filters self) flt) (history self)) ;;
  refreshHistory a.

(** The loop of [Reporter.setGlobalFilters] that builds the flag text:
    ['-%s %s ' % (key, value)] with [value] turned into 1 or 0. *)
Definition globalFlagsText (items : list (string * pyval)) : string :=
  foldl (fun flags kv =>
           flags +:+ "-" +:+ kv.1 +:+ " "
                 +:+ (if truthy kv.2 then "1" else "0") +:+ " ")
        EmptyString items.

Definition globalFiltersCmd (flags : string) (rep : pyval) : string :=
  "cmdScrollFieldReporter -e " +:+ flags +:+ " " +:+ quoted (py_str rep) +:+ ";".

(** Appending one line to [/var/tmp/commandOutput]. *)
Definition writeOutputFile (text : string) : M unit :=
  let! s := get in
  match hostFileAppend (host s) "/var/tmp/commandOutput" text with
  | Some h' => modify (set_host h')
  | None => raise IOError
  end.

(** [Reporter.setGlobalFilters]; [filters.items()] is [pyItems] of the
    keywords, so the flags come in the order in which the interpreter
    iterates the keyword dictionary, whatever that order is. *)
Definition setGlobalFilters (a : nat) (flt : gmap string pyval) : M unit :=
  let flags := globalFlagsText (pyItems (map_to_list flt)) in
  let! s := get in
  let cmd := globalFiltersCmd flags (cmdReporter s) in
  writeOutputFile (cmd +:+ nl) ;;
  executeCommand cmd ;;
  modify (fun s => set_globalFilters (dict_update (globalFilters s) flt) s).

(** [Reporter.getGlobalFilter]: the statements after its first [return]
    are never reached. *)
Definition getGlobalFilter (key : string) : M pyval :=
  let! s := get in
  match globalFilters s !! key with
  | Some v => ret v
  | None => raise KeyError
  end.

(** [Reporter.addCmdReporter]. *)
Definition addCmdReporter (rep : string) : M unit :=
  modify (set_cmdReporter (PStr rep)).

(** [Reporter.clear]. *)
Definition clear (a : nat) : M unit :=
  let! self := getObj a in
  executeCommand (clearCmd (name self)).

(** [Reporter.text]. *)
Definition text (a : nat) (t : string) : M unit :=
  let! self := getObj a in
  executeCommand (textCmd t (name self)).

(** [Reporter.__init__(self, name, **kwargs)], with the allocation of
    [self] before it; doIt always passes a name. *)
Definition Reporter_init (nm : string) (kwargs : gmap string pyval) : M nat :=
  let! a := newObj (mkReporter nm (dict_update defaultFilters kwargs) []) in
  let! result := executeCommandResult (createCmd nm) in
  let! self := getObj a in
  setObj a (mkReporter result (filters self) (history self)) ;;
  ret a.

(* ===================================================================== *)
(** ** class ReporterDict *)
(* ===================================================================== *)

(** [ReporterDict.__getitem__] over [self.items()], the dictionary's items
    in iteration order. *)
Fixpoint ReporterDict_getitem {V} (items : list (string * V))
    (lookupName : string) : outcome V :=
  let lookupBuf := PyStr.split "|" lookupName in
  match items with
  | [] => Raise KeyError
  | (key, val) :: rest =>
      let keyBuf := PyStr.split "|" key in
      if decide (PyStr.slice_from (-1 * Z.of_nat (length lookupBuf)) keyBuf
                 = lookupBuf)
      then Ok val
      else ReporterDict_getitem rest lookupName
  end.

(** [dict.__setitem__], which [ReporterDict] inherits, on the record of
    the dictionary's items in the order their keys were first stored: the
    value of an existing key is replaced, a new key is recorded last. The
    order of iteration is not this order but [pyItems] of it. *)
Fixpoint dict_setitem {V} (items : list (string * V)) (key : string) (val : V)
  : list (string * V) :=
  match items with
  | [] => [(key, val)]
  | (k, v) :: rest =>
      if decide (k = key) then (k, val) :: rest
      else (k, v) :: dict_setitem rest key val
  end.

(** [reporters[name]] on the module-level registry. *)
Definition lookupReporter (nm : string) : M nat :=
  let! s := get in
  lift (ReporterDict_getitem (pyItems (reporters s)) nm).

(* ===================================================================== *)
(** ** cmdCallback *)
(* ===================================================================== *)

(** The dictionary of prefixes inside [cmdCallback]; [None] is its
    [KeyError]. *)
Definition messageLabel (t : MessageType) : option string :=
  match t with
  | kInfo => Some "Info"
  | kWarning => Some "Warning"
  | kError => Some "Error"
  | kResult => Some "Result"
  | _ => None
  end%string.

(** [for reporter in reporters.values(): reporter.appendHistory(line)]
    over the addresses [values()] returned. *)
Fixpoint appendAll (addrs : list nat) (line : Line) : M unit :=
  match addrs with
  | [] => ret tt
  | a :: rest => appendHistory a line ;; appendAll rest line
  end.

(** The body of [cmdCallback(nativeMsg, messageType, data)]. *)
Definition cmdCallback_body (msg : Msg) : M unit :=
  let '(nativeMsg, messageType) := msg in
  let! s := get in
  if negb (callbackState s) then ret tt
  else
    let! r :=
      (if decide (messageType = kHistory) then
         if PyStr.rfind ";" nativeMsg =? PyStr.len nativeMsg - 2 then
           modify (set_sourceType (Some kMel)) ;;
           ret (nativeMsg, mel2pyStr nativeMsg)
         else
           modify (set_sourceType (Some kPython)) ;;
           ret (nativeMsg, None)
       else
         match messageLabel messageType with
         | None => ret (nativeMsg, None)
         | Some label =>
             let nativeMsg := label +:+ ": " +:+ nativeMsg in
             if decide (sourceType s = Some kMel) then
               ret ("// " +:+ nativeMsg +:+ " //" +:+ nl,
                    Some ("# " +:+ nativeMsg +:+ " #" +:+ nl))
             else
               ret ("# " +:+ nativeMsg +:+ " #" +:+ nl, None)
         end) in
    let nativeMsg := encodeString r.1 in
    let convertedMsg := encodeString <$> r.2 in
    let! s := get in
    let line := mkLine messageType (sourceType s) nativeMsg convertedMsg in
    appendAll (pyItems (reporters s)).*2 line.

(* ===================================================================== *)
(** ** class scriptedCommand *)
(* ===================================================================== *)

(** What [OpenMaya.MArgDatabase] holds after parsing the command line. *)
Record ArgData := mkArgData {
  commandArgument0 : option string;  (* [None]: commandArgumentString(0) raises *)
  isQuery : bool;
  isEdit : bool;
  flagArgs : gmap string pyval       (* the flags that are set, with their argument *)
}.

Definition isFlagSet (d : ArgData) (key : string) : bool :=
  bool_decide (is_Some (flagArgs d !! key)).

Definition flagArgumentBool (d : ArgData) (key : string) : outcome pyval :=
  match flagArgs d !! key with
  | Some (PBool b) => Ok (PBool b)
  | _ => Raise RuntimeError
  end.

Definition flagArgumentString (d : ArgData) (key : string) : outcome string :=
  match flagArgs d !! key with
  | Some (PStr v) => Ok v
  | _ => Raise RuntimeError
  end.

(** [scriptedCommand.createCallback]: when the host refuses, the final
    [return id] finds [id] unassigned. The text written to stderr is not
    modelled. *)
Definition createCallback (stringData : string) : M Z :=
  let! s := get in
  match hostAddCallback (host s) with
  | (h', Some id) =>
      modify (fun s => set_messageIdSet true
                         (set_callbacks (callbacks s ++ [id]) (set_host h' s))) ;;
      ret id
  | (h', None) =>
      modify (fun s => set_messageIdSet false (set_host h' s)) ;;
      raise UnboundLocalError
  end.

(** The two loops of [doIt] that collect the flags given on the command
    line into a dictionary. *)
Fixpoint collectFlags (d : ArgData)
    (table : list (string * (string * MSyntaxType * pyval)))
    (acc : gmap string pyval) : outcome (gmap string pyval) :=
  match table with
  | [] => Ok acc
  | (key, (_, ty, _)) :: rest =>
      if isFlagSet d key then
        match ty with
        | kBoolean =>
            match flagArgumentBool d key with
            | Ok v => collectFlags d rest (<[key := v]> acc)
            | Raise e => Raise e
            | OutOfFuel => OutOfFuel
            | Dangling => Dangling
            end
        | kString =>
            match flagArgumentString d key with
            | Ok v => collectFlags d rest (<[key := PStr v]> acc)
            | Raise e => Raise e
            | OutOfFuel => OutOfFuel
            | Dangling => Dangling
            end
        end
      else collectFlags d rest acc
  end.

(** The first flag that is set on the command line, among the items of a
    flag table in the order given. *)
Definition firstFlagSet (d : ArgData)
    (table : list (string * (string * MSyntaxType * pyval))) : option string :=
  fst <$> find (fun e => isFlagSet d e.1) table.

(** The last statement of [doIt]. *)
Definition installCallback : M unit :=
  let! s := get in
  if messageIdSet s then ret tt
  else
    let! id := createCallback "" in
    modify (set_messageId id).

(** [scriptedCommand.doIt]; the value is what [setResult] received
    ([PNone] when it was not called). *)
Definition doIt_body (argData : ArgData) : M pyval :=
  let nm := default kPluginCmdName (commandArgument0 argData) in
  if isQuery argData then
    let! a := lookupReporter nm in
    let! reporter := getObj a in
    match firstFlagSet argData (pyItems filterFlags) with
    | Some key =>
        match filters reporter !! key with
        | Some v => ret v
        | None => raise KeyError
        end
    | None =>
        match firstFlagSet argData (pyItems globalFilterFlags) with
        | Some key => getGlobalFilter key
        | None =>
            let! s := get in
            let result :=
              if isFlagSet argData kCmdReporter.1 then cmdReporter s else PNone in
            installCallback ;;
            ret result
        end
    end
  else
    let! flt := lift (collectFlags argData (pyItems filterFlags) ∅) in
    let! gflt := lift (collectFlags argData (pyItems globalFilterFlags) ∅) in
    let! a :=
      (if isEdit argData then
         let! a := lookupReporter nm in
         (if bool_decide (flt = ∅) then ret tt else setFilters a flt) ;;
         (if bool_decide (gflt = ∅) then ret tt else setGlobalFilters a gflt) ;;
         (if isFlagSet argData kClear.1 then clear a
          else if isFlagSet argData kText.1 then
            let! t := lift (flagArgumentString argData kText.1) in
            text a t
          else if isFlagSet argData kCmdReporter.1 then
            let! r := lift (flagArgumentString argData kCmdReporter.1) in
            addCmdReporter r
          else ret tt) ;;
         ret a
       else
         let! a := Reporter_init nm flt in
         let! reporter := getObj a in
         modify (fun s => set_reporters
                            (dict_setitem (reporters s) (name reporter) a) s) ;;
         ret a) in
    let! reporter := getObj a in
    installCallback ;;
    ret (PStr (name reporter)).

End WithCallback.

(** [cmdCallback] itself. The host calls it from inside
    [MGlobal.executeCommand], which [cmdCallback] reaches through
    [appendHistory]; [fuel] bounds the depth of that nesting. *)
Fixpoint cmdCallback (fuel : nat) (msg : Msg) : M unit :=
  match fuel with
  | O => fun s => (OutOfFuel, s)
  | S n => cmdCallback_body (cmdCallback n) msg
  end.

(** [scriptedCommand.doIt] with [cmdCallback] as the host's callback. *)
Definition doIt (fuel : nat) (argData : ArgData) : M pyval :=
  doIt_body (cmdCallback fuel) argData.

(** The host reporting the output of a command that is not one of the
    reporters' own: each message goes to every installed callback. *)
Definition hostEmit (fuel : nat) (msgs : list Msg) : M unit :=
  deliver (cmdCallback fuel) msgs.

(** The module as it is right after loading. *)
Definition initial (h : H) : State :=
  mkState _ true None 0 false defaultGlobalFilters PNone [] [] h [] [].

End Operations.

(* ===================================================================== *)
(** ** Notions used in the statements *)
(* ===================================================================== *)

Section Notions.
Context `{Host}.

(** A callback that returns at once, changing nothing, while
    [callbackState] is false. *)
Definition drops (cb : Msg -> M unit) : Prop :=
  forall m s, callbackState s = false -> cb m s = (Ok tt, s).

(** The host's answer to a command, and the state once the host has run
    it: the command is on record, the host has moved on, and
    [callbackState] holds [b]. *)
Definition hostAnswer (s : State) (cmd : string) : option string :=
  (hostExecute (host s) cmd).2.

Definition afterCommand (b : bool) (cmd : string) (s : State) : State :=
  set_callbackState b
    (set_issued (issued s ++ [cmd])
       (set_host (hostExecute (host s) cmd).1.1 s)).

(** A host whose commands never raise. *)
Definition hostNeverRaises : Prop :=
  forall h cmd, is_Some (hostExecute h cmd).2.

(** The filter dictionary of every [Reporter] has the two keys that
    [lineFilter] subscripts. *)
Definition wf_filters (flt : gmap string pyval) : Prop :=
  is_Some (flt !! "filterSourceType"%string)
  /\ is_Some (flt !! "convertToPython"%string).

(** The registry names each object once, under one key, and only objects
    that exist; every object has well-formed filters. *)
Definition wf (s : State) : Prop :=
  NoDup (reporters s).*1
  /\ NoDup (reporters s).*2
  /\ (forall a, a ∈ (reporters s).*2 -> (a < length (heap s))%nat)
  /\ Forall (fun r => wf_filters (filters r)) (heap s).

(** [self.history.append(line)] on the object at address [a]. *)
Definition appended (a : nat) (line : Line) (s : State) : State :=
  match heap s !! a with
  | Some r =>
      set_heap (<[a := mkReporter (name r) (filters r) (history r ++ [line])]>
                  (heap s)) s
  | None => s
  end.

(** The line [cmdCallback] builds for a message when the module-level
    [sourceType] holds [src], and the value it leaves in [sourceType]. *)
Definition newSourceType (msg : Msg) (src : option string) : option string :=
  if decide (msg.2 = kHistory) then
    if PyStr.rfind ";" msg.1 =? PyStr.len msg.1 - 2
    then Some kMel else Some kPython
  else src.

Definition lineFor (msg : Msg) (src : option string) : Line :=
  let '(nativeMsg, messageType) := msg in
  if decide (messageType = kHistory) then
    if PyStr.rfind ";" nativeMsg =? PyStr.len nativeMsg - 2
    then mkLine kHistory (Some kMel) (encodeString nativeMsg)
           (encodeString <$> mel2pyStr nativeMsg)
    else mkLine kHistory (Some kPython) (encodeString nativeMsg) None
  else
    match messageLabel messageType with
    | None => mkLine messageType src (encodeString nativeMsg) None
    | Some label =>
        if decide (src = Some kMel)
        then mkLine messageType src
               (encodeString ("// " +:+ (label +:+ ": " +:+ nativeMsg) +:+ " //" +:+ nl))
               (Some (encodeString ("# " +:+ (label +:+ ": " +:+ nativeMsg) +:+ " #" +:+ nl)))
        else mkLine messageType src
               (encodeString ("# " +:+ (label +:+ ": " +:+ nativeMsg) +:+ " #" +:+ nl))
               None
    end.

(** The text [refreshHistory] puts in the widget: what [lineFilter] gives
    for each buffered line, in buffer order, a suppressed line giving
    nothing. *)
Definition rendered (flt : gmap string pyval) (lines : list Line) : string :=
  foldr (fun line rest =>
           match lineFilter flt line with
           | Ok (Some t) => t +:+ rest
           | _ => rest
           end) EmptyString lines.

(** The callback bookkeeping: [messageIdSet] says whether a callback is
    installed, and there is never a second one. *)
Definition cbInv (s : State) : Prop :=
  length (callbacks s) = if messageIdSet s then 1%nat else 0%nat.

Definition Inv (s : State) : Prop := wf s /\ cbInv s.

(** [Inv], and the addresses in [l] are those of allocated objects. *)
Definition InvL (l : list nat) (s : State) : Prop :=
  Inv s /\ forall a, a ∈ l -> (a < length (heap s))%nat.

(** An outcome the Python program can have: a value or an exception. *)
Definition proper {A} (o : outcome A) : Prop :=
  match o with
  | Ok _ | Raise _ => True
  | OutOfFuel | Dangling => False
  end.

(** A call started in a state with [P] returns in a state with [Q] or
    raises in a state with [E]; it ends in no other way. *)
Definition hoare {A} (P : State -> Prop) (m : M A)
    (Q : A -> State -> Prop) (E : State -> Prop) : Prop :=
  forall s, P s ->
    match m s with
    | (Ok a, s') => Q a s'
    | (Raise _, s') => E s'
    | (OutOfFuel, _) | (Dangling, _) => False
    end.

(** [InvL] together with a further property [J] of the state. *)
Definition InvJ (J : State -> Prop) (l : list nat) (s : State) : Prop :=
  InvL l s /\ J s.

(** [s'] is a later state than [s0] in which nothing of [s0] got lost:
    every reporter object is still there under its name, with its old
    history as the beginning of its present one, and every registry key is
    still a key. *)
Definition keepsAll (s0 s' : State) : Prop :=
  (forall a r, heap s0 !! a = Some r ->
     exists r', heap s' !! a = Some r' /\ name r' = name r
                /\ history r `prefix_of` history r')
  /\ (forall k, k ∈ (reporters s0).*1 -> k ∈ (reporters s').*1).

(** [messageId] holds the id of the installed callback. *)
Definition idInv (s : State) : Prop :=
  messageIdSet s = true -> callbacks s = [messageId s].

(** Every reporter object has all the filter keys of [filterFlags]. *)
Definition filtersInv (s : State) : Prop :=
  forall a r key, heap s !! a = Some r -> key ∈ filterFlags.*1 ->
    is_Some (filters r !! key).

(** [Reporter.globalFilters] has its three keys. *)
Definition globalsInv (s : State) : Prop :=
  forall key, key ∈ globalFilterFlags.*1 -> is_Some (globalFilters s !! key).

(** What happens to the module between two moments at which the host is
    idle: a plug-in command runs, or the host reports the output of some
    other command. Two levels of nesting are all [cmdCallback] needs. *)
Inductive step : State -> State -> Prop :=
| step_doIt fuel argData s o s' :
    (2 <= fuel)%nat -> doIt fuel argData s = (o, s') -> step s s'
| step_emit fuel msgs s o s' :
    (2 <= fuel)%nat -> hostEmit fuel msgs s = (o, s') -> step s s'.

Definition reachable (s : State) : Prop :=
  exists h, rtc step (initial h) s.

End Notions.

Section Unload.
Context `{Host}.

(** [OpenMaya.MMessage.removeCallback] and [MFnPlugin.deregisterCommand]:
    the host's next state, or [None] when the call raises. *)
Variable hostRemoveCallback : H -> Z -> option H.
Variable hostDeregisterCommand : H -> string -> option H.

(** [removeCallback]: the exception is passed on after a line on stderr;
    a removed callback is no longer installed. *)
Definition removeCallback (id : Z) : M unit :=
  fun s =>
    match hostRemoveCallback (host s) id with
    | Some h' =>
        (Ok tt, set_callbacks (filter (fun x => x <> id) (callbacks s))
                  (set_host h' s))
    | None => (Raise RuntimeError, s)
    end.

(** [uninitializePlugin]. *)
Definition uninitializePlugin : M unit :=
  bind (fun s => if messageIdSet s then removeCallback (messageId s) s
                 else (Ok tt, s))
    (fun _ s =>
       match hostDeregisterCommand (host s) kPluginCmdName with
       | Some h' => (Ok tt, set_host h' s)
       | None => (Raise RuntimeError, s)
       end).

End Unload.

(** A small host for examples. Every command succeeds with the same
    widget path and is echoed back as a result message; the one callback
    id is 1; [mel2pyStr] and [encodeString] are stand-ins; dictionaries are
    iterated in the order their keys were stored. *)
Definition echoHost : Host :=
  {| H := unit;
     hostExecute := fun h cmd => (h, [(cmd, kResult)], Some "win|rep"%string);
     hostAddCallback := fun h => (h, Some 1);
     hostFileAppend := fun h _ _ => Some h;
     mel2pyStr := fun m => Some ("py " +:+ m);
     encodeString := fun m => m;
     pyItems := fun _ l => l;
     pyItems_perm := fun _ l => Permutation_refl l |}.

(** Two module states over [echoHost], each with one reporter registered
    as [win|rep] and the callback installed: in [idle] the host is idle, in
    [busy] a reporter is inside [executeCommand]. *)
Definition demoReporter : Reporter :=
  mkReporter "win|rep" defaultFilters [].

Definition idle : @State echoHost :=
  @mkState echoHost true None 1 true defaultGlobalFilters PNone
    [demoReporter] [("win|rep"%string, 0%nat)] tt [] [1].


(** [idle] with two lines in the reporter's history already: an echoed
    Python command and an information message. *)
Definition twoLines : list Line :=
  [ mkLine kHistory (Some kPython) "print 1" None;
    mkLine kInfo (Some kPython) "# Info: i #" None ].

Definition idleTwoLines : @State echoHost :=
  @mkState echoHost true None 1 true defaultGlobalFilters PNone
    [mkReporter "win|rep" defaultFilters twoLines]
    [("win|rep"%string, 0%nat)] tt [] [1].



(** Three command lines for [echoHost]: creating a reporter, editing one
    of its filters, and querying that filter; and the module state after the
    first of them has run in a freshly loaded module. *)
Definition createRep : ArgData :=
  mkArgData (Some "rep"%string) false false ∅.

Definition editRep : ArgData :=
  mkArgData (Some "rep"%string) false true {["suppressInfo"%string := PBool true]}.

Definition queryRep : ArgData :=
  mkArgData (Some "rep"%string) true false {["suppressInfo"%string := PBool true]}.

Definition created : @State echoHost :=
  (@doIt echoHost 2 createRep (@initial echoHost tt)).2.

End Reporter.

(* ===================================================================== *)
(** * Properties *)
(* ===================================================================== *)

(** ** Strings *)

Module PyStrFacts.
Import PyStr.

Lemma split_not_nil c s : split c s ≠ [].
Proof.
  destruct s as [|a s]; simpl; [done|].
  destruct (decide (a = c)); [done|].
  by destruct (split c s).
Qed.

Lemma split_cons_ne c a s :
  a ≠ c →
  ∃ h t, split c s = h :: t ∧ split c (String a s) = String a h :: t.
Proof.
  intros Hne. simpl. destruct (decide (a = c)); [done|].
  destruct (split c s) as [|h t] eqn:E.
  - by apply split_not_nil in E.
  - eauto.
Qed.

Lemma join_cons2 sp x y l : join sp (x :: y :: l) = x +:+ sp +:+ join sp (y :: l).
Proof. reflexivity. Qed.

Lemma append_String a s t : String a s +:+ t = String a (s +:+ t).
Proof. reflexivity. Qed.

Lemma append_nil_r s : s +:+ EmptyString = s.
Proof. induction s as [|a s IH]; [done|]. by rewrite append_String, IH. Qed.

Lemma append_assoc s t u : (s +:+ t) +:+ u = s +:+ (t +:+ u).
Proof. induction s as [|a s IH]; [done|]. by rewrite !append_String, IH. Qed.

Lemma join_String a h t sp : join sp (String a h :: t) = String a (join sp (h :: t)).
Proof. destruct t; reflexivity. Qed.

(** Joining what [split] produced gives the string back. *)
Lemma join_split c s : join (String c EmptyString) (split c s) = s.
Proof.
  induction s as [|a s IH]; [done|].
  destruct (decide (a = c)) as [->|Hne].
  - simpl. destruct (decide (c = c)); [|done].
    destruct (split c s) as [|h t] eqn:E; [by apply split_not_nil in E|].
    rewrite join_cons2, IH. reflexivity.
  - destruct (split_cons_ne c a s Hne) as (h & t & E1 & E2).
    rewrite E2, join_String. f_equal. by rewrite <- E1.
Qed.

Lemma occurs_false_app c s t :
  occurs c (s +:+ t) = false ↔ occurs c s = false ∧ occurs c t = false.
Proof.
  induction s as [|a s IH]; [simpl; tauto|].
  rewrite append_String. simpl. rewrite !orb_false_iff, IH. tauto.
Qed.

(** A string without the separator is a single component. *)
Lemma split_no_sep c s : occurs c s = false → split c s = [s].
Proof.
  induction s as [|a s IH]; simpl; [done|].
  intros [Ha Hs]%orb_false_iff. apply bool_decide_eq_false in Ha.
  destruct (decide (a = c)); [done|]. by rewrite (IH Hs).
Qed.

Lemma split_app_sep c s t :
  occurs c s = false →
  split c (s +:+ String c t) = s :: split c t.
Proof.
  induction s as [|a s IH]; intros Hs.
  - simpl. by destruct (decide (c = c)).
  - simpl in Hs. apply orb_false_iff in Hs as [Ha Hs].
    apply bool_decide_eq_false in Ha.
    rewrite append_String. simpl. destruct (decide (a = c)); [done|].
    by rewrite (IH Hs).
Qed.

(** Splitting what [join] produced gives the components back, when none
    of them holds the separator. *)
Lemma split_join c l :
  l ≠ [] → Forall (λ x, occurs c x = false) l →
  split c (join (String c EmptyString) l) = l.
Proof.
  induction l as [|x l IH]; [done|]. intros _ Hall.
  apply Forall_cons in Hall as [Hx Hl].
  destruct l as [|y l].
  - simpl. by apply split_no_sep.
  - rewrite join_cons2, append_String.
    rewrite split_app_sep by done. f_equal. by apply IH.
Qed.

(** No component of a split holds the separator. *)
Lemma split_components c s : Forall (λ x, occurs c x = false) (split c s).
Proof.
  induction s as [|a s IH]; simpl; [by repeat constructor|].
  destruct (decide (a = c)) as [|Hne]; [by constructor|].
  destruct (split c s) as [|h t]; [repeat constructor; simpl|].
  - rewrite orb_false_r. by apply bool_decide_eq_false.
  - apply Forall_cons in IH as [Hh Ht]. constructor; [|done].
    simpl. rewrite Hh, orb_false_r. by apply bool_decide_eq_false.
Qed.

Lemma join_snoc c l v :
  l ≠ [] →
  join (String c EmptyString) (l ++ [v])
  = join (String c EmptyString) l +:+ String c EmptyString +:+ v.
Proof.
  induction l as [|x l IH]; [done|]. intros _.
  destruct l as [|y l]; [done|].
  change ((x :: y :: l) ++ [v]) with (x :: (y :: l) ++ [v]).
  simpl ((y :: l) ++ [v]) in *. rewrite !join_cons2, IH by done.
  by rewrite !append_assoc.
Qed.

Lemma rfind_ge c s : -1 ≤ rfind c s < len s.
Proof.
  unfold len. induction s as [|a s IH]; simpl String.length; simpl rfind; [lia|].
  destruct (0 <=? rfind c s) eqn:E; [lia|].
  destruct (decide (a = c)); lia.
Qed.

(** [rfind] answers [-1] exactly when the character does not occur. *)
Lemma rfind_none c s : rfind c s = -1 ↔ occurs c s = false.
Proof.
  induction s as [|a s IH]; simpl; [done|].
  pose proof (rfind_ge c s) as Hr.
  destruct (0 <=? rfind c s) eqn:E.
  - apply Z.leb_le in E. split; [lia|].
    intros [_ Hs]%orb_false_iff. apply IH in Hs. lia.
  - apply Z.leb_gt in E. assert (rfind c s = -1) as Hm by lia.
    apply IH in Hm. rewrite Hm, orb_false_r.
    destruct (decide (a = c)) as [->|Hne].
    + rewrite bool_decide_eq_true_2 by done. done.
    + rewrite bool_decide_eq_false_2 by done. done.
Qed.

(** When it is not [-1], [rfind] is the index of the last occurrence. *)
Lemma rfind_last c s i :
  0 ≤ i →
  rfind c s = i ↔
  String.get (Z.to_nat i) s = Some c
  ∧ ∀ j, (Z.to_nat i < j)%nat → String.get j s ≠ Some c.
Proof.
  revert i. induction s as [|a s IH]; intros i Hi.
  - simpl. split; [lia|]. by intros [? _].
  - simpl rfind. pose proof (rfind_ge c s) as Hr.
    destruct (0 <=? rfind c s) eqn:E.
    + apply Z.leb_le in E. split.
      * intros <-. replace (Z.to_nat (rfind c s + 1)) with (S (Z.to_nat (rfind c s))) by lia.
        simpl. destruct (IH (rfind c s) E) as [IH1 _].
        destruct (IH1 eq_refl) as [Hg Hl]. split; [done|].
        intros [|j] Hj; [lia|]. simpl. apply Hl. lia.
      * intros [Hg Hl]. destruct (Z.to_nat i) as [|n] eqn:En.
        -- exfalso. destruct (IH (rfind c s) E) as [IH1 _].
           destruct (IH1 eq_refl) as [Hg' _].
           apply (Hl (S (Z.to_nat (rfind c s)))); [lia|done].
        -- simpl in Hg. assert (rfind c s = Z.of_nat n) as Hn.
           { apply IH; [lia|]. rewrite Nat2Z.id. split; [done|].
             intros j Hj. apply (Hl (S j)). lia. }
           lia.
    + apply Z.leb_gt in E. assert (rfind c s = -1) as Hm by lia.
      apply rfind_none in Hm.
      assert (∀ j, String.get j s ≠ Some c) as Hnot.
      { clear -Hm. induction s as [|b s IH]; intros j; [by destruct j|].
        simpl in Hm. apply orb_false_iff in Hm as [Hb Hs].
        apply bool_decide_eq_false in Hb.
        destruct j; simpl; [congruence|]. by apply IH. }
      destruct (decide (a = c)) as [->|Hne].
      * split.
        -- intros <-. simpl. split; [done|]. intros [|j] Hj; [lia|]. simpl. apply Hnot.
        -- intros [Hg _]. destruct (Z.to_nat i) as [|n] eqn:En; [lia|].
           simpl in Hg. by apply Hnot in Hg.
      * split; [lia|]. intros [Hg _].
        destruct (Z.to_nat i) as [|n] eqn:En; simpl in Hg; [congruence|].
        by apply Hnot in Hg.
Qed.

(** [l[-n:]] for [n >= 1] keeps the last [n] elements, or all of [l] when
    it has fewer. *)
Lemma slice_from_neg {A} (l : list A) (n : nat) :
  (1 ≤ n)%nat →
  slice_from (-1 * Z.of_nat n) l = drop (length l - n) l.
Proof.
  intros Hn. unfold slice_from.
  destruct (-1 * Z.of_nat n <? 0) eqn:E; [|apply Z.ltb_ge in E; lia].
  f_equal. lia.
Qed.

(** The test of [ReporterDict.__getitem__] is the suffix relation. *)
Lemma slice_from_suffix {A} (k b : list A) :
  b ≠ [] →
  slice_from (-1 * Z.of_nat (length b)) k = b ↔ b `suffix_of` k.
Proof.
  intros Hb. rewrite slice_from_neg by (destruct b; [done|simpl; lia]).
  split.
  - intros E. exists (take (length k - length b) k).
    by rewrite <- E at 2; rewrite take_drop.
  - intros [p ->]. rewrite length_app.
    replace (length p + length b - length b)%nat with (length p) by lia.
    by rewrite drop_app_length.
Qed.

End PyStrFacts.

(** ** appendEnv and prependEnv *)

Module ShellFacts.
Import PyStr PyStrFacts Shell.

Section EnvFacts.
Variable pathsep : ascii.

Lemma join_append_value old v :
  join (sep pathsep) (split pathsep old ++ [v]) = old +:+ sep pathsep +:+ v.
Proof.
  unfold sep. rewrite join_snoc by apply split_not_nil. by rewrite join_split.
Qed.

Lemma join_prepend_value old v :
  join (sep pathsep) (v :: split pathsep old) = v +:+ sep pathsep +:+ old.
Proof.
  unfold sep. destruct (split pathsep old) as [|h t] eqn:E.
  - by apply split_not_nil in E.
  - rewrite join_cons2, <- E. by rewrite join_split.
Qed.

Lemma split_appended old v :
  occurs pathsep v = false →
  split pathsep (old +:+ sep pathsep +:+ v) = split pathsep old ++ [v].
Proof.
  intros Hv. rewrite <- join_append_value. unfold sep. apply split_join.
  - by destruct (split pathsep old).
  - apply Forall_app. split; [apply split_components|]. by repeat constructor.
Qed.

Lemma split_prepended old v :
  occurs pathsep v = false →
  split pathsep (v +:+ sep pathsep +:+ old) = v :: split pathsep old.
Proof.
  intros Hv. rewrite <- join_prepend_value. unfold sep. apply split_join; [done|].
  constructor; [done|apply split_components].
Qed.

Lemma appendEnv_unset env v (e : gmap string string) :
  e !! env = None → appendEnv pathsep env v e = <[env := v]> e.
Proof. intros E. unfold appendEnv. by rewrite E. Qed.

Lemma prependEnv_unset env v (e : gmap string string) :
  e !! env = None → prependEnv pathsep env v e = <[env := v]> e.
Proof. intros E. unfold prependEnv. by rewrite E. Qed.

Lemma appendEnv_present env v old (e : gmap string string) :
  e !! env = Some old → v ∈ split pathsep old → appendEnv pathsep env v e = e.
Proof. intros E Hin. unfold appendEnv. rewrite E. by rewrite decide_True. Qed.

Lemma prependEnv_present env v old (e : gmap string string) :
  e !! env = Some old → v ∈ split pathsep old → prependEnv pathsep env v e = e.
Proof. intros E Hin. unfold prependEnv. rewrite E. by rewrite decide_True. Qed.

Lemma appendEnv_absent env v old (e : gmap string string) :
  e !! env = Some old → v ∉ split pathsep old →
  appendEnv pathsep env v e = <[env := old +:+ sep pathsep +:+ v]> e.
Proof.
  intros E Hin. unfold appendEnv. rewrite E, decide_False by done.
  by rewrite join_append_value.
Qed.

Lemma prependEnv_absent env v old (e : gmap string string) :
  e !! env = Some old → v ∉ split pathsep old →
  prependEnv pathsep env v e = <[env := v +:+ sep pathsep +:+ old]> e.
Proof.
  intros E Hin. unfold prependEnv. rewrite E, decide_False by done.
  by rewrite join_prepend_value.
Qed.

Lemma appendEnv_idempotent env v (e : gmap string string) :
  occurs pathsep v = false →
  appendEnv pathsep env v (appendEnv pathsep env v e) = appendEnv pathsep env v e.
Proof.
  intros Hv. destruct (e !! env) as [old|] eqn:E.
  - destruct (decide (v ∈ split pathsep old)) as [Hin|Hin].
    + rewrite (appendEnv_present _ _ _ _ E Hin). by eapply appendEnv_present.
    + rewrite (appendEnv_absent _ _ _ _ E Hin).
      eapply appendEnv_present; [apply lookup_insert_eq|].
      rewrite split_appended by done. set_solver.
  - rewrite (appendEnv_unset _ _ _ E).
    eapply appendEnv_present; [apply lookup_insert_eq|].
    rewrite split_no_sep by done. set_solver.
Qed.

Lemma prependEnv_idempotent env v (e : gmap string string) :
  occurs pathsep v = false →
  prependEnv pathsep env v (prependEnv pathsep env v e) = prependEnv pathsep env v e.
Proof.
  intros Hv. destruct (e !! env) as [old|] eqn:E.
  - destruct (decide (v ∈ split pathsep old)) as [Hin|Hin].
    + rewrite (prependEnv_present _ _ _ _ E Hin). by eapply prependEnv_present.
    + rewrite (prependEnv_absent _ _ _ _ E Hin).
      eapply prependEnv_present; [apply lookup_insert_eq|].
      rewrite split_prepended by done. set_solver.
  - rewrite (prependEnv_unset _ _ _ E).
    eapply prependEnv_present; [apply lookup_insert_eq|].
    rewrite split_no_sep by done. set_solver.
Qed.

(** C10, as amended: for a value [v] that does not contain
    [os.path.pathsep], [appendEnv(env, v)] and [prependEnv(env, v)] are
    idempotent; if [env] is unset they set it to [v]; if [v] is already one
    of the components of its value they change nothing; otherwise
    [appendEnv] makes [v] the last component and [prependEnv] the first,
    the existing components keeping their order. *)
Theorem appendEnv_prependEnv_spec env v (e : gmap string string) :
  occurs pathsep v = false →
  appendEnv pathsep env v (appendEnv pathsep env v e) = appendEnv pathsep env v e
  ∧ prependEnv pathsep env v (prependEnv pathsep env v e) = prependEnv pathsep env v e
  ∧ (e !! env = None →
       appendEnv pathsep env v e = <[env := v]> e
       ∧ prependEnv pathsep env v e = <[env := v]> e)
  ∧ (∀ old, e !! env = Some old → v ∈ split pathsep old →
       appendEnv pathsep env v e = e ∧ prependEnv pathsep env v e = e)
  ∧ (∀ old, e !! env = Some old → v ∉ split pathsep old →
       appendEnv pathsep env v e = <[env := old +:+ sep pathsep +:+ v]> e
       ∧ split pathsep (old +:+ sep pathsep +:+ v) = split pathsep old ++ [v]
       ∧ prependEnv pathsep env v e = <[env := v +:+ sep pathsep +:+ old]> e
       ∧ split pathsep (v +:+ sep pathsep +:+ old) = v :: split pathsep old).
Proof.
  intros Hv. split_and!.
  - by apply appendEnv_idempotent.
  - by apply prependEnv_idempotent.
  - intros E. split; [by apply appendEnv_unset | by apply prependEnv_unset].
  - intros old E Hin. split; [by eapply appendEnv_present | by eapply prependEnv_present].
  - intros old E Hin. split_and!.
    + by apply appendEnv_absent.
    + by apply split_appended.
    + by apply prependEnv_absent.
    + by apply split_prepended.
Qed.

End EnvFacts.

(** The statement above at [PATH=/usr/bin:/bin] and the value [/opt/bin]. *)
Lemma appendEnv_prependEnv_spec_witness :
  occurs ":" "/opt/bin" = false
  ∧ appendEnv ":" "PATH" "/opt/bin"
      (appendEnv ":" "PATH" "/opt/bin" {["PATH" := "/usr/bin:/bin"]})
    = appendEnv ":" "PATH" "/opt/bin" ({["PATH" := "/usr/bin:/bin"]} : gmap string string).
Proof.
  split; [reflexivity|].
  exact (proj1 (appendEnv_prependEnv_spec ":" "PATH" "/opt/bin"
                  {["PATH" := "/usr/bin:/bin"]} eq_refl)).
Defined.

Lemma env_twice_value :
  appendEnv ":" "PATH" "a:b" (appendEnv ":" "PATH" "a:b" ∅) !! "PATH"
    = Some "a:b:a:b"
  ∧ appendEnv ":" "PATH" "a:b" ∅ !! "PATH" = Some "a:b"
  ∧ prependEnv ":" "PATH" "a:b" (prependEnv ":" "PATH" "a:b" ∅) !! "PATH"
    = Some "a:b:a:b"
  ∧ prependEnv ":" "PATH" "a:b" ∅ !! "PATH" = Some "a:b".
Proof. vm_compute. done. Qed.

(** C10 as stated fails: a value that contains the separator is added
    again by a second call. Here [PATH] is unset and the value is [a:b]:
    one call gives [a:b], two calls give [a:b:a:b]. *)
Lemma appendEnv_not_idempotent :
  appendEnv ":" "PATH" "a:b" (appendEnv ":" "PATH" "a:b" ∅)
    ≠ appendEnv ":" "PATH" "a:b" ∅
  ∧ prependEnv ":" "PATH" "a:b" (prependEnv ":" "PATH" "a:b" ∅)
    ≠ prependEnv ":" "PATH" "a:b" ∅.
Proof.
  destruct env_twice_value as (A2 & A1 & P2 & P1).
  split; intros E.
  - rewrite E, A1 in A2. discriminate.
  - rewrite E, P1 in P2. discriminate.
Qed.

End ShellFacts.

(** ** ReporterDict *)

Module ReporterDictFacts.
Import PyStr PyStrFacts Reporter.

Section Getitem.
Context {V : Type}.
Implicit Types (items : list (string * V)) (v : V).

(** Whether a stored key answers a lookup: the components of the lookup
    name are the trailing components of the key. *)
Local Abbreviation answers lookupName key :=
  (split "|" lookupName `suffix_of` split "|" key).

Lemma getitem_cons items key val lookupName :
  ReporterDict_getitem ((key, val) :: items) lookupName
  = if decide (answers lookupName key) then Ok val
    else ReporterDict_getitem items lookupName.
Proof.
  simpl. pose proof (slice_from_suffix (split "|" key) (split "|" lookupName)
                       (split_not_nil _ _)) as Hs.
  destruct (decide (slice_from _ _ = _)) as [E|E];
    destruct (decide (answers lookupName key)) as [Ha|Ha]; try done.
  - by apply Hs in E.
  - by apply Hs in Ha.
Qed.

Lemma getitem_Ok items lookupName v :
  ReporterDict_getitem items lookupName = Ok v ↔
  ∃ i key, items !! i = Some (key, v) ∧ answers lookupName key
    ∧ ∀ j key' v', (j < i)%nat → items !! j = Some (key', v') →
                   ¬ answers lookupName key'.
Proof.
  induction items as [|[k w] items IH].
  - simpl. split; [done|]. by intros (i & key & ? & _).
  - rewrite getitem_cons. destruct (decide (answers lookupName k)) as [Hs|Hs].
    + split.
      * intros [= ->]. exists 0%nat, k. split_and!; [done..|]. intros; lia.
      * intros (i & key & Hi & Hk & Hfirst). destruct i as [|i].
        -- simpl in Hi. by inversion Hi.
        -- exfalso. by apply (Hfirst 0%nat k w); [lia|..].
    + rewrite IH. split.
      * intros (i & key & Hi & Hk & Hfirst). exists (S i), key.
        split_and!; [done..|]. intros [|j] key' v' Hj Hl.
        -- simpl in Hl. by inversion Hl; subst.
        -- apply (Hfirst j key' v'); [lia|done].
      * intros (i & key & Hi & Hk & Hfirst). destruct i as [|i].
        -- simpl in Hi. inversion Hi; subst. done.
        -- exists i, key. split_and!; [done..|]. intros j key' v' Hj Hl.
           apply (Hfirst (S j) key' v'); [lia|done].
Qed.

Lemma getitem_KeyError items lookupName :
  ReporterDict_getitem items lookupName = Raise KeyError ↔
  ∀ key v, (key, v) ∈ items → ¬ answers lookupName key.
Proof.
  induction items as [|[k w] items IH].
  - simpl. split; [|done]. intros _ key v Hin. by apply elem_of_nil in Hin.
  - rewrite getitem_cons. destruct (decide (answers lookupName k)) as [Hs|Hs].
    + split; [done|]. intros Hall. exfalso. apply (Hall k w); [left|done].
    + rewrite IH. split.
      * intros Hall key v [[= -> ->]|Hin]%elem_of_cons; [done|]. by eapply Hall.
      * intros Hall key v Hin. apply (Hall key v). by right.
Qed.

Lemma getitem_outcome items lookupName :
  (∃ v, ReporterDict_getitem items lookupName = Ok v)
  ∨ ReporterDict_getitem items lookupName = Raise KeyError.
Proof.
  induction items as [|[k w] items IH]; [by right|].
  rewrite getitem_cons. destruct (decide _); [left; eauto|done].
Qed.

(** A name without ['|'] answers exactly the keys whose last component
    it is. *)
Lemma answers_last comp key :
  occurs "|" comp = false →
  answers comp key ↔ last (split "|" key) = Some comp.
Proof.
  intros Hc. rewrite (split_no_sep _ _ Hc). split.
  - intros [p ->]. by rewrite last_snoc.
  - intros Hl. destruct (split "|" key) as [|x l] eqn:E using rev_ind; [done|].
    rewrite last_snoc in Hl. inversion Hl; subst. by exists l.
Qed.

(** C9: [ReporterDict.__getitem__] returns the value of the first stored
    key, in iteration order, whose trailing ['|']-separated components are
    the components of the lookup name; it raises [KeyError] exactly when no
    stored key has that suffix, and ends in no other way; so the last
    component of any stored key finds a value stored under a key that ends
    in that component. *)
Theorem ReporterDict_getitem_spec items lookupName :
  (∀ v, ReporterDict_getitem items lookupName = Ok v ↔
        ∃ i key, items !! i = Some (key, v) ∧ answers lookupName key
          ∧ ∀ j key' v', (j < i)%nat → items !! j = Some (key', v') →
                         ¬ answers lookupName key')
  ∧ (ReporterDict_getitem items lookupName = Raise KeyError ↔
     ∀ key v, (key, v) ∈ items → ¬ answers lookupName key)
  ∧ ((∃ v, ReporterDict_getitem items lookupName = Ok v)
     ∨ ReporterDict_getitem items lookupName = Raise KeyError)
  ∧ (∀ key v comp,
       (key, v) ∈ items → last (split "|" key) = Some comp →
       ∃ key' v', ReporterDict_getitem items comp = Ok v'
                  ∧ (key', v') ∈ items
                  ∧ last (split "|" key') = Some comp).
Proof.
  split_and!.
  - intros v. apply getitem_Ok.
  - apply getitem_KeyError.
  - apply getitem_outcome.
  - intros key v comp Hin Hlast.
    assert (occurs "|" comp = false) as Hc.
    { pose proof (split_components "|" key) as Hall.
      rewrite Forall_forall in Hall. apply Hall.
      destruct (split "|" key) as [|x l] using rev_ind; [done|].
      rewrite last_snoc in Hlast. inversion Hlast; subst. set_solver. }
    destruct (getitem_outcome items comp) as [[v' Hv']|Hk].
    + pose proof Hv' as Hv''. apply getitem_Ok in Hv'' as (i & key' & Hi & Hk & _).
      exists key', v'. split_and!; [done| |by apply answers_last].
      apply list_elem_of_lookup. eauto.
    + exfalso. rewrite getitem_KeyError in Hk.
      apply (Hk key v Hin). by apply answers_last.
Qed.

End Getitem.

(** A lookup by a last component: the key [win|pane|rep] is found as
    [rep] and as [pane|rep], and [pane] alone finds nothing. *)
Example getitem_by_last_component :
  ReporterDict_getitem [("other", 7%nat); ("win|pane|rep", 3%nat)] "rep" = Ok 3%nat
  ∧ ReporterDict_getitem [("other", 7%nat); ("win|pane|rep", 3%nat)] "pane|rep" = Ok 3%nat
  ∧ ReporterDict_getitem [("other", 7%nat); ("win|pane|rep", 3%nat)] "pane" = Raise KeyError.
Proof. vm_compute. done. Qed.

End ReporterDictFacts.

(** ** The reporter's own commands and the callback *)

Module ReporterFacts.
Import PyStr PyStrFacts Reporter.

(** The double-quote character, written out. *)
Local Abbreviation dquote := (String "034"%char EmptyString).

Section Commands.
Context `{Host}.
Implicit Types (s : State) (cb : Msg → M unit).

(** The command texts, character by character. *)
Lemma insertTextCmd_text output nm :
  insertTextCmd output nm
  = "scrollField -e -insertText " +:+ dquote +:+ output +:+ dquote
      +:+ " " +:+ dquote +:+ nm +:+ dquote +:+ ";".
Proof. unfold insertTextCmd, quoted, dq. by rewrite !append_assoc. Qed.

Lemma textCmd_text output nm :
  textCmd output nm
  = "scrollField -e -text " +:+ dquote +:+ output +:+ dquote
      +:+ " " +:+ dquote +:+ nm +:+ dquote +:+ ";".
Proof. unfold textCmd, quoted, dq. by rewrite !append_assoc. Qed.

Lemma createCmd_text nm :
  createCmd nm
  = "scrollField -wordWrap false -editable false " +:+ dquote +:+ nm +:+ dquote.
Proof. done. Qed.

Lemma globalFiltersCmd_text flags rep :
  globalFiltersCmd flags rep
  = "cmdScrollFieldReporter -e " +:+ flags +:+ " "
      +:+ dquote +:+ py_str rep +:+ dquote +:+ ";".
Proof. unfold globalFiltersCmd, quoted, dq. by rewrite !append_assoc. Qed.

(** [pyItems] lists the items of the dictionary, each once. *)
Lemma pyItems_elem {V} (l : list (string * V)) x : x ∈ pyItems l ↔ x ∈ l.
Proof. by rewrite (pyItems_perm l). Qed.

Lemma pyItems_elem_1 {V} (l : list (string * V)) x : x ∈ pyItems l → x ∈ l.
Proof. apply pyItems_elem. Qed.

Lemma pyItems_elem_2 {V} (l : list (string * V)) x : x ∈ l → x ∈ pyItems l.
Proof. apply pyItems_elem. Qed.

Lemma pyItems_keys {V} (l : list (string * V)) : (pyItems l).*1 ≡ₚ l.*1.
Proof. by rewrite (pyItems_perm l). Qed.

Lemma pyItems_values {V} (l : list (string * V)) : (pyItems l).*2 ≡ₚ l.*2.
Proof. by rewrite (pyItems_perm l). Qed.

Lemma times_drops cb m n s :
  drops cb → callbackState s = false →
  times n (hostCall (cb m)) s = (Ok tt, s).
Proof.
  intros Hcb Hs. induction n as [|n IH]; [done|].
  simpl. unfold bind, hostCall. by rewrite (Hcb m s Hs).
Qed.

Lemma deliver_drops cb msgs s :
  drops cb → callbackState s = false →
  deliver cb msgs s = (Ok tt, s).
Proof.
  intros Hcb Hs. induction msgs as [|m msgs IH]; [done|].
  simpl. unfold bind at 1 2, get. by rewrite times_drops.
Qed.

Lemma hostRun_drops cb cmd s :
  drops cb → callbackState s = false →
  hostRun cb cmd s
  = (match hostAnswer s cmd with Some r => Ok r | None => Raise RuntimeError end,
     set_issued (issued s ++ [cmd]) (set_host (hostExecute (host s) cmd).1.1 s)).
Proof.
  intros Hcb Hs. unfold hostRun, hostAnswer, bind at 1, get.
  destruct (hostExecute (host s) cmd) as [[h' msgs] res]. simpl.
  unfold bind at 1, modify. unfold bind at 1.
  rewrite deliver_drops by done. by destruct res.
Qed.

(** [executeCommand] in one step: the command is handed to the host with
    [callbackState] false, nothing the host reports meanwhile gets
    through, and [callbackState] is true again unless the host raised. *)
Lemma executeCommand_drops cb cmd s :
  drops cb →
  executeCommand cb cmd s
  = (match hostAnswer s cmd with Some _ => Ok tt | None => Raise RuntimeError end,
     afterCommand (bool_decide (is_Some (hostAnswer s cmd))) cmd s).
Proof.
  intros Hcb. unfold executeCommand, bind at 1, modify.
  unfold bind at 1. rewrite hostRun_drops by done.
  unfold hostAnswer, afterCommand. simpl.
  by destruct (hostExecute (host s) cmd) as [[h' msgs] [r|]].
Qed.

Lemma executeCommandResult_drops cb cmd s :
  drops cb →
  executeCommandResult cb cmd s
  = (match hostAnswer s cmd with Some r => Ok r | None => Raise RuntimeError end,
     afterCommand (bool_decide (is_Some (hostAnswer s cmd))) cmd s).
Proof.
  intros Hcb. unfold executeCommandResult, bind at 1, modify.
  unfold bind at 1. rewrite hostRun_drops by done.
  unfold hostAnswer, afterCommand. simpl.
  by destruct (hostExecute (host s) cmd) as [[h' msgs] [r|]].
Qed.

(** [lineFilter] ends as a Python call ends. *)
Lemma lineFilter_proper (flt : gmap string pyval) line :
  proper (lineFilter flt line).
Proof. unfold lineFilter. repeat case_match; done. Qed.

Lemma cmdCallback_body_drops cb : drops (cmdCallback_body cb).
Proof.
  intros [nativeMsg messageType] s Hs.
  unfold cmdCallback_body, bind, get. by rewrite Hs.
Qed.

(** With any budget at all, [cmdCallback] ignores a message that arrives
    while [callbackState] is false. *)
Lemma cmdCallback_drops fuel : drops (cmdCallback (S fuel)).
Proof. apply cmdCallback_body_drops. Qed.

(** [appendHistory] in one step. *)
Lemma appendHistory_drops cb a line s r :
  drops cb → heap s !! a = Some r →
  appendHistory cb a line s
  = match lineFilter (filters r) line with
    | Ok (Some text) =>
        executeCommand cb (insertTextCmd text (name r)) (appended a line s)
    | Ok None => (Ok tt, appended a line s)
    | Raise e => (Raise e, appended a line s)
    | OutOfFuel => (OutOfFuel, appended a line s)
    | Dangling => (Dangling, appended a line s)
    end.
Proof.
  intros Hcb Hr. unfold appendHistory, bind at 1, getObj. rewrite Hr.
  unfold bind at 1, setObj.
  rewrite decide_True by (by eapply lookup_lt_Some).
  unfold appended. rewrite Hr. simpl. unfold bind, lift.
  by destruct (lineFilter (filters r) line) as [[text|]| | |].
Qed.

Lemma appendHistory_dangling cb a line s :
  heap s !! a = None → appendHistory cb a line s = (Dangling, s).
Proof. intros Hr. unfold appendHistory, bind, getObj. by rewrite Hr. Qed.

Lemma heap_appended_eq a line s r :
  heap s !! a = Some r →
  heap (appended a line s) !! a
  = Some (mkReporter (name r) (filters r) (history r ++ [line])).
Proof.
  intros Hr. unfold appended. rewrite Hr. simpl.
  apply list_lookup_insert_eq. by eapply lookup_lt_Some.
Qed.

Lemma heap_appended_ne a a' line s :
  a ≠ a' → heap (appended a line s) !! a' = heap s !! a'.
Proof.
  intros Hne. unfold appended. destruct (heap s !! a); [|done].
  simpl. by apply list_lookup_insert_ne.
Qed.

Lemma length_heap_appended a line s :
  length (heap (appended a line s)) = length (heap s).
Proof.
  unfold appended. destruct (heap s !! a); [|done]. simpl. apply length_insert.
Qed.

(** C4: [appendHistory] always appends the line to the history of its
    reporter, whatever the filters say and however the call ends; the
    entries already there stay as they are, in their places, and no other
    reporter object is touched. *)
Theorem appendHistory_appends fuel a line s r :
  heap s !! a = Some r →
  ∃ o s',
    appendHistory (cmdCallback (S fuel)) a line s = (o, s')
    ∧ heap s' !! a = Some (mkReporter (name r) (filters r) (history r ++ [line]))
    ∧ (∀ i, i < length (history r) →
         ∃ r', heap s' !! a = Some r' ∧ history r' !! i = history r !! i)%nat
    ∧ (∀ a', a' ≠ a → heap s' !! a' = heap s !! a')
    ∧ length (heap s') = length (heap s)
    ∧ proper o.
Proof.
  intros Hr.
  assert (∀ s', heap s' = heap (appended a line s) →
    heap s' !! a = Some (mkReporter (name r) (filters r) (history r ++ [line]))
    ∧ (∀ i, i < length (history r) →
         ∃ r', heap s' !! a = Some r' ∧ history r' !! i = history r !! i)%nat
    ∧ (∀ a', a' ≠ a → heap s' !! a' = heap s !! a')
    ∧ length (heap s') = length (heap s)) as Hpost.
  { intros s' ->. split_and!.
    - by apply heap_appended_eq.
    - intros i Hi. eexists. split; [by apply heap_appended_eq|].
      simpl. by apply lookup_app_l.
    - intros a' Hne. by apply heap_appended_ne.
    - apply length_heap_appended. }
  rewrite (appendHistory_drops _ _ _ _ r) by (done || apply cmdCallback_drops).
  pose proof (lineFilter_proper (filters r) line) as Hp.
  destruct (lineFilter (filters r) line) as [[text|]|e| |]; try done.
  - rewrite executeCommand_drops by apply cmdCallback_drops.
    eexists _, _; split; [reflexivity|].
    destruct (Hpost (afterCommand
                       (bool_decide (is_Some (hostAnswer (appended a line s)
                                                (insertTextCmd text (name r)))))
                       (insertTextCmd text (name r)) (appended a line s)) eq_refl)
      as (A & B & C & D).
    split_and!; [done..|]. by destruct (hostAnswer _ _).
  - eexists _, _; split; [reflexivity|].
    destruct (Hpost (appended a line s) eq_refl) as (A & B & C & D). by split_and!.
  - eexists _, _; split; [reflexivity|].
    destruct (Hpost (appended a line s) eq_refl) as (A & B & C & D). by split_and!.
Qed.

(** C7: when the line passes the filters, [appendHistory] gives the host
    exactly one command, the [scrollField -e -insertText] of the filtered
    text; when the line is suppressed it gives the host nothing, and the
    state afterwards is the state before with the line appended to this
    reporter's history. *)
Theorem appendHistory_widget fuel a line s r :
  heap s !! a = Some r →
  (∀ text, lineFilter (filters r) line = Ok (Some text) →
     ∃ o s', appendHistory (cmdCallback (S fuel)) a line s = (o, s')
       ∧ issued s'
         = issued s ++ ["scrollField -e -insertText " +:+ dquote +:+ text +:+ dquote
                        +:+ " " +:+ dquote +:+ name r +:+ dquote +:+ ";"]
       ∧ heap s' = <[a := mkReporter (name r) (filters r) (history r ++ [line])]> (heap s)
       ∧ reporters s' = reporters s
       ∧ (o = Ok tt ∨ o = Raise RuntimeError))
  ∧ (lineFilter (filters r) line = Ok None →
     appendHistory (cmdCallback (S fuel)) a line s
     = (Ok tt,
        set_heap (<[a := mkReporter (name r) (filters r) (history r ++ [line])]>
                    (heap s)) s)).
Proof.
  intros Hr. split.
  - intros text Ht.
    rewrite (appendHistory_drops _ _ _ _ r) by (done || apply cmdCallback_drops).
    rewrite Ht, executeCommand_drops by apply cmdCallback_drops.
    eexists _, _. split; [reflexivity|]. unfold appended. rewrite Hr.
    split_and!; [by rewrite <- insertTextCmd_text|done..|].
    destruct (hostAnswer _ _); auto.
  - intros Ht.
    rewrite (appendHistory_drops _ _ _ _ r) by (done || apply cmdCallback_drops).
    rewrite Ht. unfold appended. by rewrite Hr.
Qed.

End Commands.

(** The statement of [appendHistory_appends] at the demonstration state. *)
Lemma appendHistory_appends_witness :
  ∃ o s',
    @appendHistory echoHost (cmdCallback 1) 0
      (mkLine kResult None "# Result: 1 #" None) idle = (o, s')
    ∧ heap s' !! 0%nat
      = Some (mkReporter "win|rep" defaultFilters
                [mkLine kResult None "# Result: 1 #" None])
    ∧ (∀ i, i < 0 →
         ∃ r', heap s' !! 0%nat = Some r'
               ∧ history r' !! i = @nil Line !! i)%nat
    ∧ (∀ a', a' ≠ 0%nat → heap s' !! a' = heap idle !! a')
    ∧ length (heap s') = length (heap idle)
    ∧ proper o.
Proof.
  exact (@appendHistory_appends echoHost 0 0
           (mkLine kResult None "# Result: 1 #" None) idle demoReporter eq_refl).
Defined.

(** The statement of [appendHistory_widget] at the demonstration state. *)
Lemma appendHistory_widget_witness :
  ∃ o s',
    @appendHistory echoHost (cmdCallback 1) 0
      (mkLine kResult None "# Result: 1 #" None) idle = (o, s')
    ∧ issued s' = ["scrollField -e -insertText " +:+ dquote +:+ "# Result: 1 #"
                   +:+ dquote +:+ " " +:+ dquote +:+ "win|rep" +:+ dquote +:+ ";"]
    ∧ heap s' = [mkReporter "win|rep" defaultFilters
                   [mkLine kResult None "# Result: 1 #" None]]
    ∧ reporters s' = reporters idle
    ∧ (o = Ok tt ∨ o = Raise RuntimeError).
Proof.
  exact (proj1 (@appendHistory_widget echoHost 0 0
                  (mkLine kResult None "# Result: 1 #" None) idle demoReporter
                  eq_refl) "# Result: 1 #"%string eq_refl).
Defined.

Section Filters.
Context `{Host}.
Implicit Types (s : State) (flt : gmap string pyval).

Lemma filterFlagNames_total t : is_Some (filterFlagNames !! mt_value t).
Proof. destruct t; simpl; eauto. Qed.

(** With well-formed filters [lineFilter] returns: a text or [None]. *)
Lemma lineFilter_returns flt line :
  wf_filters flt → ∃ out, lineFilter flt line = Ok out.
Proof.
  intros [[fst Hf] [ctp Hc]]. unfold lineFilter. rewrite Hf, Hc.
  destruct (filterFlagNames_total (l_messageType line)) as [flag ->].
  destruct (negb (truthy fst) || eq_sourceType fst (l_sourceType line)); [|eauto].
  destruct (negb (truthy (default (PBool false) (flt !! flag)))); [|eauto].
  destruct (l_convertedMsg line); [destruct (truthy ctp)|]; eauto.
Qed.

(** C3: [lineFilter] returns [None] exactly when a non-empty
    [filterSourceType] differs from the line's source type or the suppress
    flag that [filterFlagNames] names for the line's message type is set;
    otherwise it returns the converted message when [convertToPython] is
    true and there is one, and the native message if not. *)
Theorem lineFilter_spec flt line :
  wf_filters flt →
  ∃ fst ctp flag,
    flt !! "filterSourceType"%string = Some fst
    ∧ flt !! "convertToPython"%string = Some ctp
    ∧ filterFlagNames !! mt_value (l_messageType line) = Some flag
    ∧ (lineFilter flt line = Ok None ↔
         (truthy fst = true ∧ eq_sourceType fst (l_sourceType line) = false)
         ∨ truthy (default (PBool false) (flt !! flag)) = true)
    ∧ (∀ converted,
         ¬ ((truthy fst = true ∧ eq_sourceType fst (l_sourceType line) = false)
            ∨ truthy (default (PBool false) (flt !! flag)) = true) →
         truthy ctp = true → l_convertedMsg line = Some converted →
         lineFilter flt line = Ok (Some converted))
    ∧ (¬ ((truthy fst = true ∧ eq_sourceType fst (l_sourceType line) = false)
          ∨ truthy (default (PBool false) (flt !! flag)) = true) →
       truthy ctp = false ∨ l_convertedMsg line = None →
       lineFilter flt line = Ok (Some (l_nativeMsg line))).
Proof.
  intros [[fst Hf] [ctp Hc]].
  destruct (filterFlagNames_total (l_messageType line)) as [flag Hflag].
  exists fst, ctp, flag. split_and!; [done..| | |].
  - unfold lineFilter. rewrite Hf, Hc, Hflag.
    destruct (truthy fst), (eq_sourceType fst (l_sourceType line)),
      (truthy (default (PBool false) (flt !! flag))); simpl;
      try (split; [done | intros [[? ?]|?]; done]);
      try (split; [auto | done]);
      destruct (l_convertedMsg line); try destruct (truthy ctp);
      split; try done; intros [[? ?]|?]; done.
  - intros converted Hpass Hctp Hconv. unfold lineFilter.
    rewrite Hf, Hc, Hflag, Hconv, Hctp.
    destruct (truthy fst), (eq_sourceType fst (l_sourceType line)),
      (truthy (default (PBool false) (flt !! flag))); simpl; try done;
      exfalso; apply Hpass; auto.
  - intros Hpass Hnat. unfold lineFilter. rewrite Hf, Hc, Hflag.
    destruct (truthy fst), (eq_sourceType fst (l_sourceType line)),
      (truthy (default (PBool false) (flt !! flag))); simpl;
      try (exfalso; apply Hpass; auto; fail);
      destruct Hnat as [-> | ->]; try done; by destruct (l_convertedMsg line).
Qed.

End Filters.

(** [lineFilter_spec] for a reporter that converts to Python and
    suppresses results. *)
Lemma lineFilter_spec_witness :
  ∃ fst ctp flag,
    (<["convertToPython"%string := PBool true]>
       (<["suppressResults"%string := PBool true]> defaultFilters))
      !! "filterSourceType"%string = Some fst
    ∧ (<["convertToPython"%string := PBool true]>
         (<["suppressResults"%string := PBool true]> defaultFilters))
        !! "convertToPython"%string = Some ctp
    ∧ filterFlagNames !! mt_value kResult = Some flag
    ∧ (lineFilter
         (<["convertToPython"%string := PBool true]>
            (<["suppressResults"%string := PBool true]> defaultFilters))
         (mkLine kResult (Some kMel) "// Result: 1 //" (Some "# Result: 1 #"))
       = Ok None ↔
         (truthy fst = true ∧ eq_sourceType fst (Some kMel) = false)
         ∨ truthy (default (PBool false)
                     ((<["convertToPython"%string := PBool true]>
                         (<["suppressResults"%string := PBool true]> defaultFilters))
                        !! flag)) = true).
Proof.
  destruct (lineFilter_spec
              (<["convertToPython"%string := PBool true]>
                 (<["suppressResults"%string := PBool true]> defaultFilters))
              (mkLine kResult (Some kMel) "// Result: 1 //" (Some "# Result: 1 #")))
    as (fst & ctp & flag & H1 & H2 & H3 & H4 & _).
  - split; eexists; reflexivity.
  - exists fst, ctp, flag. exact (conj H1 (conj H2 (conj H3 H4))).
Defined.

Section Refresh.
Context `{Host}.
Implicit Types (s : State) (flt : gmap string pyval).

Lemma refreshLoop_rendered flt lines output :
  wf_filters flt →
  refreshLoop flt lines output = Ok (output +:+ rendered flt lines).
Proof.
  intros Hwf. revert output.
  induction lines as [|line lines IH]; intros output; simpl.
  - by rewrite append_nil_r.
  - destruct (lineFilter_returns flt line Hwf) as [[t|] ->].
    + by rewrite IH, append_assoc.
    + apply IH.
Qed.

Lemma wf_filters_update flt other :
  wf_filters flt → wf_filters (dict_update flt other).
Proof.
  intros [Hf Hc]. unfold wf_filters, dict_update.
  rewrite !lookup_union_is_Some. auto.
Qed.

Lemma dict_update_lookup flt other k :
  dict_update flt other !! k
  = match other !! k with Some v => Some v | None => flt !! k end.
Proof.
  unfold dict_update. rewrite lookup_union.
  destruct (other !! k), (flt !! k); done.
Qed.

(** [refreshHistory] in one step. *)
Lemma refreshHistory_drops cb a s r :
  drops cb → heap s !! a = Some r → wf_filters (filters r) →
  refreshHistory cb a s
  = executeCommand cb (textCmd (rendered (filters r) (history r)) (name r)) s.
Proof.
  intros Hcb Hr Hwf. unfold refreshHistory, bind at 1, getObj. rewrite Hr.
  unfold bind at 1, lift. by rewrite refreshLoop_rendered.
Qed.

(** C5: [setFilters] leaves the reporter with its previous filters updated
    by the given ones, and gives the host one command,
    [scrollField -e -text "text" "name";], whose text is the concatenation,
    in buffer order, of what [lineFilter] under the new filters returns for
    each line of the whole history, suppressed lines adding nothing. *)
Theorem setFilters_rerenders fuel a f s r :
  heap s !! a = Some r → wf_filters (filters r) →
  ∃ o s' r',
    setFilters (cmdCallback (S fuel)) a f s = (o, s')
    ∧ heap s' !! a = Some r'
    ∧ name r' = name r ∧ history r' = history r
    ∧ (∀ k, filters r' !! k
            = match f !! k with Some v => Some v | None => filters r !! k end)
    ∧ issued s'
      = issued s ++ ["scrollField -e -text " +:+ dquote
                     +:+ rendered (filters r') (history r) +:+ dquote
                     +:+ " " +:+ dquote +:+ name r +:+ dquote +:+ ";"]
    ∧ rendered (filters r') (history r)
      = foldr (λ line rest,
                 match lineFilter (filters r') line with
                 | Ok (Some t) => t +:+ rest
                 | _ => rest
                 end) EmptyString (history r)
    ∧ (∀ a', a' ≠ a → heap s' !! a' = heap s !! a')
    ∧ (o = Ok tt ∨ o = Raise RuntimeError)
    ∧ (hostNeverRaises → o = Ok tt).
Proof.
  intros Hr Hwf.
  pose (r' := mkReporter (name r) (dict_update (filters r) f) (history r)).
  pose (s1 := set_heap (<[a := r']> (heap s)) s).
  assert (heap s1 !! a = Some r') as Hr'.
  { apply list_lookup_insert_eq. by eapply lookup_lt_Some. }
  assert (setFilters (cmdCallback (S fuel)) a f s
          = refreshHistory (cmdCallback (S fuel)) a s1) as ->.
  { unfold setFilters, bind at 1, getObj. rewrite Hr.
    unfold bind at 1, setObj. by rewrite decide_True by (by eapply lookup_lt_Some). }
  rewrite (refreshHistory_drops _ _ _ r')
    by (done || apply cmdCallback_drops || by apply wf_filters_update).
  rewrite executeCommand_drops by apply cmdCallback_drops.
  eexists _, _, r'. split; [reflexivity|]. split_and!; try done.
  - intros k. apply dict_update_lookup.
  - simpl. by rewrite textCmd_text.
  - intros a' Hne. simpl. by apply list_lookup_insert_ne.
  - destruct (hostAnswer s1 _); auto.
  - intros Hhost. unfold hostAnswer.
    by destruct (Hhost (host s1) (textCmd (rendered (filters r') (history r')) (name r')))
      as [x ->].
Qed.


End Refresh.

(** [setFilters_rerenders] on a reporter with two lines in its history:
    with [suppressInfo] turned on, the widget is given the first line
    only. *)
Lemma setFilters_rerenders_witness :
  ∃ o s',
    @setFilters echoHost (cmdCallback 1) 0 {["suppressInfo"%string := PBool true]}
      idleTwoLines
    = (o, s')
    ∧ history <$> heap s' !! 0%nat = Some twoLines
    ∧ issued s' = ["scrollField -e -text " +:+ dquote +:+ "print 1" +:+ dquote
                   +:+ " " +:+ dquote +:+ "win|rep" +:+ dquote +:+ ";"].
Proof.
  destruct (@setFilters_rerenders echoHost 0 0
              {["suppressInfo"%string := PBool true]} idleTwoLines
              (mkReporter "win|rep" defaultFilters twoLines) eq_refl)
    as (o & s' & r' & E & Hh & _ & Hhist & Hflt & Hi & _).
  - split; eexists; reflexivity.
  - exists o, s'. split; [exact E|]. split; [rewrite Hh; simpl; by rewrite Hhist|].
    assert (filters r'
            = dict_update defaultFilters {["suppressInfo"%string := PBool true]})
      as Hf.
    { apply map_eq. intros k. rewrite Hflt. symmetry. apply dict_update_lookup. }
    rewrite Hi, Hf. vm_compute. reflexivity.
Defined.

(** A reporter's own command over [echoHost], which echoes every command
    back as a message: the echo reaches [cmdCallback] and is dropped. *)
Example echo_is_dropped :
  @executeCommand echoHost (cmdCallback 2) (clearCmd "win|rep") idle
  = (Ok tt,
     @mkState echoHost true None 1 true defaultGlobalFilters PNone
       [demoReporter] [("win|rep"%string, 0%nat)] tt [clearCmd "win|rep"] [1]).
Proof. reflexivity. Qed.

Section Callback.
Context `{Host}.
Implicit Types (s : State) (cb : Msg → M unit).

(** [cmdCallback] with [callbackState] true: the line is built, the
    module-level [sourceType] is set, and the line goes to every reporter
    that [reporters.values()] lists. *)
Lemma cmdCallback_body_true cb msg s :
  callbackState s = true →
  cmdCallback_body cb msg s
  = appendAll cb (pyItems (reporters s)).*2 (lineFor msg (sourceType s))
      (set_sourceType (newSourceType msg (sourceType s)) s).
Proof.
  intros Hs. destruct msg as [nativeMsg messageType].
  unfold cmdCallback_body, lineFor, newSourceType, bind at 1, get.
  rewrite Hs. simpl negb. cbv iota. simpl fst. simpl snd.
  destruct s as [cs src mid mset gf cr hp reps h iss cbs]. simpl in *.
  destruct (decide (messageType = kHistory)) as [->|Hne].
  - destruct (rfind ";" nativeMsg =? len nativeMsg - 2); reflexivity.
  - destruct (messageLabel messageType) as [label|]; [|reflexivity].
    destruct (decide (src = Some kMel)); reflexivity.
Qed.





End Callback.


(** C2, the code at a one-character history message without [';']:
    [rfind] answers [-1], which is [len - 2], so the message is taken for
    mel, [mel2pyStr] is tried on it, and [sourceType] becomes ['mel']. *)
Theorem cmdCallback_one_character_is_mel :
  occurs ";" "a" = false
  ∧ rfind ";" "a" = len "a" - 2
  ∧ ∃ s', @cmdCallback echoHost 2 ("a"%string, kHistory) idle = (Ok tt, s')
          ∧ sourceType s' = Some kMel
          ∧ history <$> heap s' !! 0%nat
            = Some [mkLine kHistory (Some kMel) "a" (Some "py a")].
Proof.
  split_and!; [done..|]. eexists. split; [vm_compute; reflexivity|]. done.
Qed.

Section MelTest.

(** The test [nativeMsg.rfind(';') == len(nativeMsg)-2] holds when the
    last [';'] is the last character but one, and also for a
    one-character text without [';']. *)
Lemma mel_test_cases text :
  rfind ";" text = len text - 2 ↔
  (2 ≤ len text
   ∧ String.get (Z.to_nat (len text - 2)) text = Some ";"%char
   ∧ ∀ j, (Z.to_nat (len text - 2) < j)%nat → String.get j text ≠ Some ";"%char)
  ∨ (len text = 1 ∧ occurs ";" text = false).
Proof.
  pose proof (rfind_ge ";" text) as Hr. split.
  - intros E. destruct (decide (0 ≤ len text - 2)) as [Hn|Hn].
    + left. split; [lia|]. by apply rfind_last.
    + right. split; [lia|]. apply rfind_none. lia.
  - intros [(Hn & Hg & Hl)|[Hn Ho]].
    + apply rfind_last; [lia|done].
    + apply rfind_none in Ho. lia.
Qed.

End MelTest.

(** ** What every reachable state satisfies *)

Section Invariants.
Context `{Host}.
Implicit Types (s : State) (cb : Msg → M unit) (l : list nat).

Lemma hoare_bind {A B} P (m : M A) (k : A → M B) Q R E :
  hoare P m Q E → (∀ a, hoare (Q a) (k a) R E) → hoare P (bind m k) R E.
Proof.
  intros Hm Hk s HP. specialize (Hm s HP). unfold bind.
  destruct (m s) as [[a|e| |] s']; try done. by apply Hk.
Qed.

Lemma hoare_ret {A} (a : A) (P : State → Prop) Q E :
  (∀ s, P s → Q a s) → hoare P (ret a) Q E.
Proof. intros HQ s HP. by apply HQ. Qed.

Lemma hoare_raise {A} e (P : State → Prop) (Q : A → State → Prop) E :
  (∀ s, P s → E s) → hoare P (raise e) Q E.
Proof. intros HE s HP. by apply HE. Qed.

Lemma hoare_modify f (P : State → Prop) Q E :
  (∀ s, P s → Q tt (f s)) → hoare P (modify f) Q E.
Proof. intros HQ s HP. by apply HQ. Qed.

Lemma hoare_get_bind {A} P (k : State → M A) Q E :
  (∀ s0, hoare (λ s, P s ∧ s = s0) (k s0) Q E) → hoare P (bind get k) Q E.
Proof. intros Hk s HP. unfold bind, get. by apply (Hk s s). Qed.

Lemma hoare_lift_bind {A B} (o : outcome A) P (k : A → M B) Q E :
  proper o → (∀ s, P s → E s) →
  (∀ a, o = Ok a → hoare P (k a) Q E) → hoare P (bind (lift o) k) Q E.
Proof.
  intros Ho HE Hk s HP. unfold bind, lift.
  destruct o as [a|e| |]; try done; [by apply Hk|by apply HE].
Qed.

Lemma hoare_getObj_bind {A} a P (k : Reporter → M A) Q E :
  (∀ s, P s → (a < length (heap s))%nat) →
  (∀ r, hoare (λ s, P s ∧ heap s !! a = Some r) (k r) Q E) →
  hoare P (bind (getObj a) k) Q E.
Proof.
  intros Hv Hk s HP. unfold bind, getObj.
  destruct (lookup_lt_is_Some_2 _ _ (Hv s HP)) as [r Hr]. rewrite Hr.
  by apply (Hk r s).
Qed.

Lemma hoare_weaken {A} (P P' : State → Prop) (m : M A) Q E :
  (∀ s, P' s → P s) → hoare P m Q E → hoare P' m Q E.
Proof. intros HP Hm s HP'. apply Hm. by apply HP. Qed.

Lemma hoare_post {A} (P : State → Prop) (m : M A)
    (Q Q' : A → State → Prop) (E E' : State → Prop) :
  (∀ a s, Q a s → Q' a s) → (∀ s, E s → E' s) →
  hoare P m Q E → hoare P m Q' E'.
Proof.
  intros HQ HE Hm s HP. specialize (Hm s HP).
  destruct (m s) as [[a|e| |] s']; try done; [by apply HQ|by apply HE].
Qed.

(** [InvL] looks at the heap, the registry and the callback bookkeeping
    only. *)
Lemma InvL_frame l s s' :
  InvL l s → heap s' = heap s → reporters s' = reporters s →
  callbacks s' = callbacks s → messageIdSet s' = messageIdSet s → InvL l s'.
Proof.
  intros [[(Hk & Hnd & Hv & Hf) Hc] Hl] Eh Er Ec Em.
  unfold InvL, Inv, wf, cbInv. by rewrite Eh, Er, Ec, Em.
Qed.

Lemma InvL_update l s a r r' :
  InvL l s → heap s !! a = Some r → wf_filters (filters r') →
  InvL l (set_heap (<[a := r']> (heap s)) s).
Proof.
  intros [[(Hk & Hnd & Hv & Hf) Hc] Hl] Hr Hwf. split; [split; [|done]|].
  - split_and!; simpl; try done.
    + intros a' Ha'. rewrite length_insert. by apply Hv.
    + apply Forall_insert; done.
  - intros a' Ha'. simpl. rewrite length_insert. by apply Hl.
Qed.

Lemma InvL_filters l s a r :
  InvL l s → heap s !! a = Some r → wf_filters (filters r).
Proof.
  intros [[(_ & _ & _ & Hf) _] _] Hr. rewrite Forall_forall in Hf.
  apply Hf. by eapply list_elem_of_lookup_2.
Qed.

Lemma InvL_valid l s a : InvL l s → a ∈ l → (a < length (heap s))%nat.
Proof. intros [_ Hl] Ha. by apply Hl. Qed.

Lemma InvL_mono l l' s : InvL l s → (∀ a, a ∈ l' → a ∈ l) → InvL l' s.
Proof. intros [HI Hl] Hsub. split; [done|]. intros a Ha. by apply Hl, Hsub. Qed.

Lemma InvL_registered l s : InvL l s → InvL ((reporters s).*2 ++ l) s.
Proof.
  intros [HI Hl]. split; [done|]. intros a [Ha|Ha]%elem_of_app; [|by apply Hl].
  destruct HI as [(_ & _ & Hv & _) _]. by apply Hv.
Qed.

Lemma hoare_executeCommand l cb cmd :
  drops cb → hoare (InvL l) (executeCommand cb cmd) (λ _, InvL l) (InvL l).
Proof.
  intros Hcb s HI. rewrite executeCommand_drops by done.
  destruct (hostAnswer s cmd); by eapply InvL_frame.
Qed.

Lemma hoare_setObj l a r r' (P : State → Prop) :
  (∀ s, P s → InvL l s ∧ heap s !! a = Some r ∧ wf_filters (filters r')) →
  hoare P (setObj a r') (λ _, InvL l) (InvL l).
Proof.
  intros HP s (HI & Hr & Hwf)%HP. unfold setObj.
  rewrite decide_True by (by eapply lookup_lt_Some). by eapply InvL_update.
Qed.

Lemma refreshLoop_proper flt lines output :
  proper (refreshLoop flt lines output).
Proof.
  revert output. induction lines as [|line lines IH]; intros output; [done|].
  simpl. pose proof (lineFilter_proper flt line) as Hp.
  destruct (lineFilter flt line) as [[t|]|[]| |]; try done; apply IH.
Qed.

Lemma collectFlags_proper d table acc : proper (collectFlags d table acc).
Proof.
  revert acc. induction table as [|[key [[short ty] dflt]] table IH]; intros acc; [done|].
  simpl. destruct (isFlagSet d key); [|apply IH].
  destruct ty.
  - unfold flagArgumentBool.
    destruct (flagArgs d !! key) as [[| |]|]; first [done | apply IH].
  - unfold flagArgumentString.
    destruct (flagArgs d !! key) as [[| |]|]; first [done | apply IH].
Qed.

Lemma flagArgumentString_proper d key : proper (flagArgumentString d key).
Proof. unfold flagArgumentString. by repeat case_match. Qed.

Lemma getitem_proper {V} (items : list (string * V)) nm :
  proper (ReporterDict_getitem items nm).
Proof.
  destruct (ReporterDictFacts.getitem_outcome items nm) as [[v ->]| ->]; done.
Qed.

Lemma getitem_elem {V} (items : list (string * V)) nm v :
  ReporterDict_getitem items nm = Ok v → v ∈ items.*2.
Proof.
  intros (i & key & Hi & _)%ReporterDictFacts.getitem_Ok.
  apply list_elem_of_fmap. exists (key, v). split; [done|].
  by eapply list_elem_of_lookup_2.
Qed.

Lemma hoare_appendHistory l cb a line :
  drops cb → a ∈ l →
  hoare (InvL l) (appendHistory cb a line) (λ _, InvL l) (InvL l).
Proof.
  intros Hcb Ha. apply hoare_getObj_bind.
  { intros s HI. by eapply InvL_valid. }
  intros r. eapply hoare_bind.
  { apply (hoare_setObj l a r). intros s [HI Hr]. split_and!; [done..|].
    simpl. by eapply InvL_filters. }
  intros ?. apply hoare_lift_bind; [apply lineFilter_proper|done|].
  intros [text|] _.
  - by apply hoare_executeCommand.
  - by apply hoare_ret.
Qed.

Lemma hoare_appendAll l cb addrs line :
  drops cb → (∀ a, a ∈ addrs → a ∈ l) →
  hoare (InvL l) (appendAll cb addrs line) (λ _, InvL l) (InvL l).
Proof.
  intros Hcb. induction addrs as [|a addrs IH]; simpl; intros Hsub.
  - by apply hoare_ret.
  - eapply hoare_bind.
    + apply hoare_appendHistory; [done|]. apply Hsub. by left.
    + intros ?. apply IH. intros a' Ha'. apply Hsub. by right.
Qed.

Lemma hoare_cmdCallback_body l cb msg :
  drops cb → hoare (InvL l) (cmdCallback_body cb msg) (λ _, InvL l) (InvL l).
Proof.
  intros Hcb s HI. destruct (callbackState s) eqn:Hs.
  - rewrite cmdCallback_body_true by done.
    assert (∀ a, a ∈ (pyItems (reporters s)).*2 → a ∈ (reporters s).*2 ++ l)
      as Hsub.
    { intros a Hin. rewrite pyItems_values in Hin. apply elem_of_app. by left. }
    pose proof (hoare_appendAll ((reporters s).*2 ++ l) cb
                  (pyItems (reporters s)).*2
                  (lineFor msg (sourceType s)) Hcb Hsub
                  (set_sourceType (newSourceType msg (sourceType s)) s)) as Ha.
    simpl in Ha.
    match type of Ha with ?P → _ => assert P as HP end.
    { apply InvL_registered in HI. by eapply InvL_frame. }
    specialize (Ha HP).
    destruct (appendAll _ _ _ _) as [[[]|e| |] s']; try done;
      (eapply InvL_mono; [exact Ha|]; intros a Hin; apply elem_of_app; by right).
  - by rewrite cmdCallback_body_drops.
Qed.

Lemma hoare_cmdCallback l fuel msg :
  hoare (InvL l) (cmdCallback (S (S fuel)) msg) (λ _, InvL l) (InvL l).
Proof. apply hoare_cmdCallback_body, cmdCallback_drops. Qed.

Lemma hoare_hostCall l (c : M unit) :
  hoare (InvL l) c (λ _, InvL l) (InvL l) →
  hoare (InvL l) (hostCall c) (λ _, InvL l) (InvL l).
Proof.
  intros Hc s HI. specialize (Hc s HI). unfold hostCall.
  by destruct (c s) as [[[]|e| |] s'].
Qed.

Lemma hoare_times l n (c : M unit) :
  hoare (InvL l) c (λ _, InvL l) (InvL l) →
  hoare (InvL l) (times n c) (λ _, InvL l) (InvL l).
Proof.
  intros Hc. induction n as [|n IH]; simpl.
  - by apply hoare_ret.
  - eapply hoare_bind; [apply Hc|]. intros ?. apply IH.
Qed.

Lemma hoare_deliver l cb msgs :
  (∀ m, hoare (InvL l) (cb m) (λ _, InvL l) (InvL l)) →
  hoare (InvL l) (deliver cb msgs) (λ _, InvL l) (InvL l).
Proof.
  intros Hcb. induction msgs as [|m msgs IH]; simpl.
  - by apply hoare_ret.
  - apply hoare_get_bind. intros s0.
    eapply hoare_bind.
    { eapply hoare_weaken; [|apply hoare_times, hoare_hostCall, Hcb]. by intros s [? _]. }
    intros ?. apply IH.
Qed.

Lemma hoare_refreshHistory l cb a :
  drops cb → a ∈ l →
  hoare (InvL l) (refreshHistory cb a) (λ _, InvL l) (InvL l).
Proof.
  intros Hcb Ha. apply hoare_getObj_bind.
  { intros s HI. by eapply InvL_valid. }
  intros r. apply hoare_lift_bind; [apply refreshLoop_proper|by intros s [? _]|].
  intros output _.
  eapply hoare_weaken; [|by apply hoare_executeCommand]. by intros s [? _].
Qed.

Lemma hoare_setFilters l cb a flt :
  drops cb → a ∈ l →
  hoare (InvL l) (setFilters cb a flt) (λ _, InvL l) (InvL l).
Proof.
  intros Hcb Ha. apply hoare_getObj_bind.
  { intros s HI. by eapply InvL_valid. }
  intros r. eapply hoare_bind.
  { apply (hoare_setObj l a r). intros s [HI Hr]. split_and!; [done..|].
    simpl. apply wf_filters_update. by eapply InvL_filters. }
  intros ?. by apply hoare_refreshHistory.
Qed.

Lemma hoare_writeOutputFile l text :
  hoare (InvL l) (writeOutputFile text) (λ _, InvL l) (InvL l).
Proof.
  intros s HI. unfold writeOutputFile, bind, get.
  destruct (hostFileAppend _ _ _); [|done]. by eapply InvL_frame.
Qed.

Lemma hoare_setGlobalFilters l cb a flt :
  drops cb →
  hoare (InvL l) (setGlobalFilters cb a flt) (λ _, InvL l) (InvL l).
Proof.
  intros Hcb. apply hoare_get_bind. intros s0.
  eapply hoare_bind.
  { eapply hoare_weaken; [|apply hoare_writeOutputFile]. by intros s [? _]. }
  intros ?. eapply hoare_bind; [by apply hoare_executeCommand|].
  intros ?. apply hoare_modify. intros s HI. by eapply InvL_frame.
Qed.

Lemma hoare_getGlobalFilter l key :
  hoare (InvL l) (getGlobalFilter key) (λ _, InvL l) (InvL l).
Proof.
  intros s HI. unfold getGlobalFilter, bind, get.
  by destruct (globalFilters s !! key).
Qed.

Lemma hoare_clear l cb a :
  drops cb → a ∈ l → hoare (InvL l) (clear cb a) (λ _, InvL l) (InvL l).
Proof.
  intros Hcb Ha. apply hoare_getObj_bind.
  { intros s HI. by eapply InvL_valid. }
  intros r. eapply hoare_weaken; [|by apply hoare_executeCommand]. by intros s [? _].
Qed.

Lemma hoare_text l cb a t :
  drops cb → a ∈ l → hoare (InvL l) (text cb a t) (λ _, InvL l) (InvL l).
Proof.
  intros Hcb Ha. apply hoare_getObj_bind.
  { intros s HI. by eapply InvL_valid. }
  intros r. eapply hoare_weaken; [|by apply hoare_executeCommand]. by intros s [? _].
Qed.

(** [reporters[name]] returns the address of an allocated object. *)
Lemma hoare_lookupReporter l nm :
  hoare (InvL l) (lookupReporter nm) (λ a, InvL (a :: l)) (InvL l).
Proof.
  intros s HI. unfold lookupReporter, bind, get, lift.
  pose proof (getitem_proper (pyItems (reporters s)) nm) as Hp.
  destruct (ReporterDict_getitem (pyItems (reporters s)) nm) as [a|e| |] eqn:E;
    try done.
  apply getitem_elem in E. rewrite pyItems_values in E.
  apply InvL_registered in HI.
  eapply InvL_mono; [exact HI|].
  intros a' [->|Ha']%elem_of_cons; apply elem_of_app; [by left|by right].
Qed.

(** [installCallback] keeps the bookkeeping right: it asks the host for a
    callback only when [messageIdSet] is false, that is when none is
    installed. *)
Lemma hoare_installCallback l :
  hoare (InvL l) installCallback (λ _, InvL l) (InvL l).
Proof.
  intros s [[Hwf Hc] Hl]. unfold installCallback, bind at 1, get.
  destruct (messageIdSet s) eqn:Hm; [done|].
  unfold bind at 1, createCallback, bind at 1, get.
  unfold cbInv in Hc. rewrite Hm in Hc. apply nil_length_inv in Hc.
  destruct (hostAddCallback (host s)) as [h' [id|]]; simpl.
  - split; [split; [done|]|done]. unfold cbInv. simpl. by rewrite Hc.
  - split; [split; [done|]|done]. unfold cbInv. simpl. by rewrite Hc.
Qed.

Lemma dict_setitem_keys {V} (items : list (string * V)) k v x :
  x ∈ (dict_setitem items k v).*1 → x ∈ items.*1 ∨ x = k.
Proof.
  induction items as [|[k0 v0] items IH]; simpl.
  - intros ->%list_elem_of_singleton. by right.
  - destruct (decide (k0 = k)) as [->|Hne]; simpl.
    + intros Hx. by left.
    + intros [->|Hx]%elem_of_cons; [left; by left|].
      destruct (IH Hx) as [?|?]; [left; by right|by right].
Qed.

Lemma dict_setitem_values {V} (items : list (string * V)) k v y :
  y ∈ (dict_setitem items k v).*2 → y ∈ items.*2 ∨ y = v.
Proof.
  induction items as [|[k0 v0] items IH]; simpl.
  - intros ->%list_elem_of_singleton. by right.
  - destruct (decide (k0 = k)) as [->|Hne]; simpl.
    + intros [->|Hy]%elem_of_cons; [by right|left; by right].
    + intros [->|Hy]%elem_of_cons; [left; by left|].
      destruct (IH Hy) as [?|?]; [left; by right|by right].
Qed.

Lemma dict_setitem_NoDup_keys {V} (items : list (string * V)) k v :
  NoDup items.*1 → NoDup (dict_setitem items k v).*1.
Proof.
  induction items as [|[k0 v0] items IH]; simpl; intros Hnd.
  - apply NoDup_singleton.
  - apply NoDup_cons in Hnd as [Hk0 Hnd].
    destruct (decide (k0 = k)) as [->|Hne]; simpl.
    + by apply NoDup_cons.
    + apply NoDup_cons. split; [|by apply IH].
      intros [?|?]%dict_setitem_keys; done.
Qed.

Lemma dict_setitem_NoDup_values {V} (items : list (string * V)) k v :
  NoDup items.*2 → v ∉ items.*2 → NoDup (dict_setitem items k v).*2.
Proof.
  induction items as [|[k0 v0] items IH]; simpl; intros Hnd Hv.
  - apply NoDup_singleton.
  - apply NoDup_cons in Hnd as [Hv0 Hnd].
    apply not_elem_of_cons in Hv as [Hne0 Hv].
    destruct (decide (k0 = k)) as [->|Hne]; simpl.
    + by apply NoDup_cons.
    + apply NoDup_cons. split; [|by apply IH].
      intros [?|?]%dict_setitem_values; done.
Qed.

(** Storing a fresh object in the registry. *)
Lemma InvL_register l s k a :
  InvL l s → (a < length (heap s))%nat → a ∉ (reporters s).*2 →
  InvL l (set_reporters (dict_setitem (reporters s) k a) s).
Proof.
  intros [[(Hk & Hnd & Hv & Hf) Hc] Hl] Ha Hfresh. split; [split; [|done]|done].
  split_and!; simpl; try done.
  - by apply dict_setitem_NoDup_keys.
  - by apply dict_setitem_NoDup_values.
  - intros a' [?| ->]%dict_setitem_values; [by apply Hv|done].
Qed.

Lemma defaultFilters_wf kwargs : wf_filters (dict_update defaultFilters kwargs).
Proof. apply wf_filters_update. split; eexists; reflexivity. Qed.

(** [Reporter(name, **filters)] returns a new object that the registry
    does not know yet. *)
Lemma hoare_Reporter_init l cb nm kwargs :
  drops cb →
  hoare (InvL l) (Reporter_init cb nm kwargs)
    (λ a s, InvL (a :: l) s ∧ a ∉ (reporters s).*2) (InvL l).
Proof.
  intros Hcb s HI. unfold Reporter_init, bind at 1, newObj.
  set (r0 := mkReporter nm (dict_update defaultFilters kwargs) []).
  set (a := length (heap s)).
  assert (InvL (a :: l) (set_heap (heap s ++ [r0]) s)) as HI1.
  { destruct HI as [[(Hk & Hnd & Hv & Hf) Hc] Hl]. split; [split; [|done]|].
    - split_and!; simpl; try done.
      + intros a' Ha'. rewrite length_app. specialize (Hv a' Ha'). lia.
      + apply Forall_app. split; [done|].
        constructor; [apply defaultFilters_wf | constructor].
    - intros a' Ha'. simpl. rewrite length_app. simpl.
      apply elem_of_cons in Ha' as [->|Ha']; [unfold a; lia|].
      specialize (Hl a' Ha'). lia. }
  assert (a ∉ (reporters s).*2) as Hfresh.
  { destruct HI as [[(Hk & Hnd & Hv & Hf) Hc] Hl]. intros Ha. apply Hv in Ha.
    unfold a in Ha. lia. }
  unfold bind at 1. rewrite executeCommandResult_drops by done.
  destruct (hostAnswer _ _) as [result|].
  2:{ eapply InvL_mono; [eapply InvL_frame; [exact HI1|done..]|].
      intros a' Ha'. by right. }
  unfold bind at 1, getObj. simpl heap.
  assert ((heap s ++ [r0]) !! a = Some r0) as Hr0.
  { unfold a. by rewrite list_lookup_middle. }
  rewrite Hr0. unfold bind at 1, setObj. simpl heap.
  rewrite decide_True by (by eapply lookup_lt_Some).
  unfold bind, ret. split; [|done].
  eapply (InvL_frame _ (set_heap (<[a := mkReporter result (filters r0) (history r0)]>
                                    (heap s ++ [r0])) (set_heap (heap s ++ [r0]) s)));
    [|done..].
  eapply InvL_update; [done|exact Hr0|]. apply defaultFilters_wf.
Qed.

(** [doIt] keeps the invariant, and ends by returning or raising. *)
Lemma hoare_doIt_body cb argData :
  drops cb → hoare Inv (doIt_body cb argData) (λ _, Inv) Inv.
Proof.
  intros Hcb.
  apply (hoare_weaken (InvL [])); [intros s HI; split; [done|]; intros a Ha; by apply elem_of_nil in Ha|].
  apply (hoare_post _ _ (λ _, InvL []) _ (InvL [])); [by intros _ s [? _]|by intros s [? _]|].
  unfold doIt_body.
  destruct (isQuery argData).
  - eapply hoare_bind; [apply hoare_lookupReporter|]. intros a.
    apply (hoare_post _ _ (λ _, InvL [a]) _ (InvL [a]));
      [intros _ s HI; eapply InvL_mono; [exact HI|]; by intros ? ?%elem_of_nil
      |intros s HI; eapply InvL_mono; [exact HI|]; by intros ? ?%elem_of_nil|].
    apply hoare_getObj_bind.
    { intros s HI. eapply InvL_valid; [exact HI|by left]. }
    intros reporter.
    eapply hoare_weaken; [by intros s [HI _]; exact HI|].
    destruct (firstFlagSet argData (pyItems filterFlags)) as [key|].
    { destruct (filters reporter !! key); [by apply hoare_ret|by apply hoare_raise]. }
    destruct (firstFlagSet argData (pyItems globalFilterFlags)) as [key|].
    { apply hoare_getGlobalFilter. }
    apply hoare_get_bind. intros s0.
    eapply hoare_bind.
    { eapply hoare_weaken; [|apply hoare_installCallback]. by intros s [? _]. }
    intros ?. by apply hoare_ret.
  - apply hoare_lift_bind; [apply collectFlags_proper|done|]. intros flt _.
    apply hoare_lift_bind; [apply collectFlags_proper|done|]. intros gflt _.
    eapply hoare_bind with (Q := λ a, InvL [a]).
    + destruct (isEdit argData).
      * eapply hoare_bind; [apply hoare_lookupReporter|]. intros a.
        apply (hoare_post _ _ (λ a', InvL [a']) _ (InvL [a]));
          [done|intros s HI; eapply InvL_mono; [exact HI|]; by intros ? ?%elem_of_nil|].
        assert (a ∈ [a]) as Ha by (by left).
        eapply hoare_bind with (Q := λ _, InvL [a]).
        { destruct (bool_decide (flt = ∅)); [by apply hoare_ret|by apply hoare_setFilters]. }
        intros ?. eapply hoare_bind with (Q := λ _, InvL [a]).
        { destruct (bool_decide (gflt = ∅));
            [by apply hoare_ret|by apply hoare_setGlobalFilters]. }
        intros ?. eapply hoare_bind with (Q := λ _, InvL [a]); [|intros ?; by apply hoare_ret].
        destruct (isFlagSet argData kClear.1); [by apply hoare_clear|].
        destruct (isFlagSet argData kText.1).
        { apply hoare_lift_bind; [apply flagArgumentString_proper|done|].
          intros t _. by apply hoare_text. }
        destruct (isFlagSet argData kCmdReporter.1); [|by apply hoare_ret].
        apply hoare_lift_bind; [apply flagArgumentString_proper|done|]. intros rep _.
        apply hoare_modify. intros s HI. by eapply InvL_frame.
      * eapply hoare_bind; [by apply hoare_Reporter_init|]. intros a.
        apply (hoare_post _ _ (λ a', InvL [a']) _ (InvL [a]));
          [done|intros s HI; eapply InvL_mono; [exact HI|]; by intros ? ?%elem_of_nil|].
        apply hoare_getObj_bind.
        { intros s [HI _]. eapply InvL_valid; [exact HI|by left]. }
        intros reporter.
        eapply hoare_bind with (Q := λ _, InvL [a]); [|intros ?; by apply hoare_ret].
        apply hoare_modify. intros s [[HI Hfresh] _].
        apply InvL_register; [done| |done]. eapply InvL_valid; [exact HI|by left].
    + intros a.
      apply (hoare_post _ _ (λ _, InvL [a]) _ (InvL [a]));
        [intros _ s HI; eapply InvL_mono; [exact HI|]; by intros ? ?%elem_of_nil
        |intros s HI; eapply InvL_mono; [exact HI|]; by intros ? ?%elem_of_nil|].
      apply hoare_getObj_bind.
      { intros s HI. eapply InvL_valid; [exact HI|by left]. }
      intros reporter.
      eapply hoare_bind.
      { eapply hoare_weaken; [|apply hoare_installCallback]. by intros s [? _]. }
      intros ?. by apply hoare_ret.
Qed.

Lemma hoare_hostEmit fuel msgs :
  hoare Inv (hostEmit (S (S fuel)) msgs) (λ _, Inv) Inv.
Proof.
  apply (hoare_weaken (InvL [])); [intros s HI; split; [done|]; intros a Ha; by apply elem_of_nil in Ha|].
  apply (hoare_post _ _ (λ _, InvL []) _ (InvL [])); [by intros _ s [? _]|by intros s [? _]|].
  apply hoare_deliver. intros m. apply hoare_cmdCallback.
Qed.

Lemma Inv_initial h : Inv (initial h).
Proof.
  split; [|done]. split_and!; simpl; try apply NoDup_nil_2.
  - intros a Ha. by apply elem_of_nil in Ha.
  - constructor.
Qed.

Lemma Inv_step s s' : step s s' → Inv s → Inv s'.
Proof.
  intros [fuel argData s0 o s1 Hfuel E | fuel msgs s0 o s1 Hfuel E] HI.
  - destruct fuel as [|fuel]; [lia|].
    pose proof (hoare_doIt_body (cmdCallback (S fuel)) argData
                  (cmdCallback_drops fuel) s0 HI) as Hd.
    unfold doIt in E. rewrite E in Hd. by destruct o.
  - destruct fuel as [|[|fuel]]; [lia..|].
    pose proof (hoare_hostEmit fuel msgs s0 HI) as Hd.
    rewrite E in Hd. by destruct o as [[]| | |].
Qed.

(** Every reachable state is well formed and has its callback bookkeeping
    right. *)
Lemma reachable_Inv s : reachable s → Inv s.
Proof.
  intros [h Hrtc]. pose proof (Inv_initial h) as HI.
  induction Hrtc as [|s1 s2 s3 Hstep _ IH]; [done|].
  apply IH. by eapply Inv_step.
Qed.

(** From a reachable state a plug-in command and a delivery of host
    output both end as the Python program can end: with a value or with an
    exception. Two levels of nesting are always enough. *)
Lemma reachable_steps_end fuel s :
  reachable s →
  (∀ argData, proper (doIt (S (S fuel)) argData s).1)
  ∧ (∀ msgs, proper (hostEmit (S (S fuel)) msgs s).1).
Proof.
  intros HI%reachable_Inv. split.
  - intros argData.
    pose proof (hoare_doIt_body (cmdCallback (S (S fuel))) argData
                  (cmdCallback_drops _) s HI) as Hd.
    unfold doIt. by destruct (doIt_body _ _ _) as [[?|?| |] ?].
  - intros msgs. pose proof (hoare_hostEmit fuel msgs s HI) as Hd.
    by destruct (hostEmit _ _ _) as [[?|?| |] ?].
Qed.

(** C6: [doIt] reaches [createCallback] only through its last statement,
    which does nothing when [messageIdSet] is true; [createCallback] sets
    [messageIdSet] to true when the host accepts the callback and to false
    when it refuses; so in every state reachable through plug-in commands
    and host output at most one callback is installed, and exactly one when
    [messageIdSet] is true. *)
Theorem one_callback_installed :
  (∀ s, messageIdSet s = true → installCallback s = (Ok tt, s))
  ∧ (∀ s h' id, hostAddCallback (host s) = (h', Some id) →
       ∃ s', createCallback "" s = (Ok id, s')
             ∧ messageIdSet s' = true
             ∧ callbacks s' = callbacks s ++ [id])
  ∧ (∀ s h', hostAddCallback (host s) = (h', None) →
       ∃ s', createCallback "" s = (Raise UnboundLocalError, s')
             ∧ messageIdSet s' = false
             ∧ callbacks s' = callbacks s)
  ∧ (∀ s, reachable s →
       (length (callbacks s) ≤ 1)%nat
       ∧ (messageIdSet s = true ↔ length (callbacks s) = 1%nat)).
Proof.
  split_and!.
  - intros s Hm. unfold installCallback, bind, get. by rewrite Hm.
  - intros s h' id E. unfold createCallback, bind at 1, get. rewrite E.
    eexists. split; [reflexivity|]. done.
  - intros s h' E. unfold createCallback, bind at 1, get. rewrite E.
    eexists. split; [reflexivity|]. done.
  - intros s [_ Hc]%reachable_Inv. unfold cbInv in Hc.
    destruct (messageIdSet s); rewrite Hc; split; (lia || done).
Qed.

End Invariants.

(** Three plug-in commands in a row over [echoHost] (create, query,
    edit) install one callback, not three. *)
Example three_commands_one_callback :
  ∃ s1 s2 s3,
    @doIt echoHost 2 (mkArgData (Some "rep"%string) false false ∅) (@initial echoHost tt)
    = (Ok (PStr "win|rep"), s1)
    ∧ @doIt echoHost 2
        (mkArgData (Some "rep"%string) true false {["cmdReporter"%string := PNone]}) s1
      = (Ok PNone, s2)
    ∧ @doIt echoHost 2
        (mkArgData (Some "rep"%string) false true {["suppressInfo"%string := PBool true]}) s2
      = (Ok (PStr "win|rep"), s3)
    ∧ callbacks s1 = [1] ∧ callbacks s2 = [1] ∧ callbacks s3 = [1]
    ∧ (reporters s3).*1 = ["win|rep"%string].
Proof.
  do 3 eexists. split_and!; [vm_compute; reflexivity..| | | |]; reflexivity.
Qed.

End ReporterFacts.

(** ** More on the environment helpers *)

Module ShellMore.
Import PyStr PyStrFacts Shell ShellFacts.

Section EnvMore.
Variable pathsep : ascii.

(** Splitting distributes over a separator in the middle, whatever the
    two sides hold. *)
Lemma split_app c s t :
  split c (s +:+ String c t) = split c s ++ split c t.
Proof.
  induction s as [|a s IH].
  - simpl. by destruct (decide (c = c)).
  - rewrite append_String. simpl. destruct (decide (a = c)) as [->|Hne].
    + by rewrite IH.
    + rewrite IH. destruct (split c s) as [|h tl] eqn:E; [|done].
      by apply split_not_nil in E.
Qed.

Lemma getEnvs_set env d old (e : gmap string string) :
  e !! env = Some old → getEnvs pathsep env d e = split pathsep old.
Proof. intros E. unfold getEnvs. by rewrite E. Qed.

Lemma getEnvs_insert env d v (e : gmap string string) :
  getEnvs pathsep env d (<[env := v]> e) = split pathsep v.
Proof. apply getEnvs_set, lookup_insert_eq. Qed.

(** The component list after [appendEnv] or [prependEnv], for every value:
    a value that contains the separator arrives as several components. *)
Theorem getEnvs_after_add env v d (e : gmap string string) :
  getEnvs pathsep env d (appendEnv pathsep env v e)
  = match e !! env with
    | None => split pathsep v
    | Some old =>
        if decide (v ∈ split pathsep old) then split pathsep old
        else split pathsep old ++ split pathsep v
    end
  ∧ getEnvs pathsep env d (prependEnv pathsep env v e)
    = match e !! env with
      | None => split pathsep v
      | Some old =>
          if decide (v ∈ split pathsep old) then split pathsep old
          else split pathsep v ++ split pathsep old
      end.
Proof.
  unfold appendEnv, prependEnv. destruct (e !! env) as [old|] eqn:E.
  - destruct (decide (v ∈ split pathsep old)).
    + split; by apply getEnvs_set.
    + rewrite !getEnvs_insert, join_append_value, join_prepend_value.
      unfold sep. rewrite !append_String. split; apply split_app.
  - by rewrite !getEnvs_insert.
Qed.

(** The four writers change the one variable they are given, and leave
    it set. *)
Theorem env_writers_frame env env' v value (e : gmap string string) :
  env' ≠ env →
  appendEnv pathsep env v e !! env' = e !! env'
  ∧ prependEnv pathsep env v e !! env' = e !! env'
  ∧ _addEnv pathsep env v e !! env' = e !! env'
  ∧ putEnv pathsep env value e !! env' = e !! env'
  ∧ is_Some (appendEnv pathsep env v e !! env)
  ∧ is_Some (prependEnv pathsep env v e !! env)
  ∧ is_Some (_addEnv pathsep env v e !! env)
  ∧ is_Some (putEnv pathsep env value e !! env).
Proof.
  intros Hne. unfold appendEnv, prependEnv, _addEnv, putEnv.
  destruct (e !! env) as [old|] eqn:E; destruct value;
    try destruct (decide (v ∈ split pathsep old));
    rewrite ?lookup_insert_eq, ?lookup_insert_ne, ?E by done;
    split_and!; eauto.
Qed.

(** [putEnv] and the readers: a string comes back from [getEnv]; a
    non-empty list whose items do not contain the separator comes back from
    [getEnvs]; the empty list comes back as one empty component. *)
Theorem putEnv_round_trip env v l d ds (e : gmap string string) :
  l ≠ [] → Forall (λ x, occurs pathsep x = false) l →
  getEnv env d (putEnv pathsep env (VString v) e) = Some v
  ∧ getEnvs pathsep env ds (putEnv pathsep env (VList l) e) = l
  ∧ getEnvs pathsep env ds (putEnv pathsep env (VList []) e) = [EmptyString].
Proof.
  intros Hl Hall. unfold putEnv, getEnv. rewrite lookup_insert_eq, !getEnvs_insert.
  split_and!; [done| |done]. by apply split_join.
Qed.

(** [getEnvs] never raises: an unset variable gives the default, or the
    empty list when there is none; a set variable gives at least one
    component, and writing the components back with [putEnv] restores the
    environment. *)
Theorem getEnvs_total env ds ds' (e : gmap string string) :
  (e !! env = None →
     getEnvs pathsep env None e = [] ∧ getEnvs pathsep env (Some ds) e = ds)
  ∧ (∀ v, e !! env = Some v →
       getEnvs pathsep env ds' e ≠ []
       ∧ join (sep pathsep) (getEnvs pathsep env ds' e) = v
       ∧ putEnv pathsep env (VList (getEnvs pathsep env ds' e)) e = e).
Proof.
  split.
  - intros E. unfold getEnvs. by rewrite E.
  - intros v E. rewrite (getEnvs_set _ _ _ _ E). split_and!.
    + apply split_not_nil.
    + apply join_split.
    + unfold putEnv, sep. rewrite join_split. by apply insert_id.
Qed.

Lemma added_component env v (e : gmap string string) :
  occurs pathsep v = false →
  v ∈ getEnvs pathsep env None (appendEnv pathsep env v e)
  ∧ v ∈ getEnvs pathsep env None (prependEnv pathsep env v e).
Proof.
  intros Hv. unfold appendEnv, prependEnv. destruct (e !! env) as [old|] eqn:E.
  - destruct (decide (v ∈ split pathsep old)).
    + by rewrite !(getEnvs_set _ _ _ _ E).
    + rewrite !getEnvs_insert, join_append_value, join_prepend_value.
      unfold sep. rewrite !append_String, !split_app.
      change (EmptyString +:+ v) with v. rewrite (split_no_sep _ _ Hv).
      split; apply elem_of_app; [right|left]; by left.
  - rewrite !getEnvs_insert, (split_no_sep _ _ Hv). split; by left.
Qed.

(** Once a separator-free value is among the components, however it got
    there, [appendEnv] and [prependEnv] of it change nothing; [_addEnv]
    adds it once more. *)
Theorem add_after_add env v (e : gmap string string) :
  occurs pathsep v = false →
  appendEnv pathsep env v (prependEnv pathsep env v e) = prependEnv pathsep env v e
  ∧ prependEnv pathsep env v (appendEnv pathsep env v e) = appendEnv pathsep env v e
  ∧ appendEnv pathsep env v (_addEnv pathsep env v e) = _addEnv pathsep env v e
  ∧ prependEnv pathsep env v (_addEnv pathsep env v e) = _addEnv pathsep env v e
  ∧ getEnvs pathsep env None (_addEnv pathsep env v (_addEnv pathsep env v e))
    = getEnvs pathsep env None (_addEnv pathsep env v e) ++ [v].
Proof.
  intros Hv.
  assert (∀ e' : gmap string string,
            v ∈ getEnvs pathsep env None e' →
            appendEnv pathsep env v e' = e' ∧ prependEnv pathsep env v e' = e') as Hnoop.
  { intros e' Hin. unfold getEnvs in Hin. destruct (e' !! env) as [old|] eqn:E.
    - split; [by eapply appendEnv_present|by eapply prependEnv_present].
    - by apply elem_of_nil in Hin. }
  assert (∀ e' : gmap string string,
            getEnvs pathsep env None (_addEnv pathsep env v e')
            = getEnvs pathsep env None e' ++ [v]) as Hadd.
  { intros e'. unfold _addEnv, getEnvs at 2. destruct (e' !! env) as [old|] eqn:E.
    - rewrite getEnvs_insert, join_append_value. unfold sep.
      rewrite append_String, split_app. change (EmptyString +:+ v) with v.
      by rewrite (split_no_sep _ _ Hv).
    - rewrite getEnvs_insert. by rewrite (split_no_sep _ _ Hv). }
  destruct (added_component env v e Hv) as [Ha Hp].
  assert (v ∈ getEnvs pathsep env None (_addEnv pathsep env v e)) as Hd.
  { rewrite Hadd. apply elem_of_app. right. by left. }
  split_and!.
  - by apply Hnoop.
  - by apply Hnoop.
  - by apply Hnoop.
  - by apply Hnoop.
  - apply Hadd.
Qed.

End EnvMore.

Lemma env_writers_frame_witness :
  appendEnv ":" "PATH" "/opt/bin" {["HOME" := "/root"]} !! "HOME"
  = ({["HOME" := "/root"]} : gmap string string) !! "HOME".
Proof.
  exact (proj1 (env_writers_frame ":" "PATH" "HOME" "/opt/bin" (VString "x")
                  {["HOME" := "/root"]} ltac:(discriminate))).
Defined.

Lemma putEnv_round_trip_witness :
  getEnvs ":" "PATH" None (putEnv ":" "PATH" (VList ["/bin"; "/usr/bin"]) ∅)
  = ["/bin"; "/usr/bin"].
Proof.
  exact (proj1 (proj2 (putEnv_round_trip ":" "PATH" "x" ["/bin"; "/usr/bin"]
                         None None ∅ ltac:(discriminate)
                         ltac:(repeat constructor)))).
Defined.

Lemma add_after_add_witness :
  appendEnv ":" "PATH" "/bin" (prependEnv ":" "PATH" "/bin" {["PATH" := "/usr/bin"]})
  = prependEnv ":" "PATH" "/bin" ({["PATH" := "/usr/bin"]} : gmap string string).
Proof.
  exact (proj1 (add_after_add ":" "PATH" "/bin" {["PATH" := "/usr/bin"]} eq_refl)).
Defined.

Section ProcessMore.
Variable linesep : string.
Variable posix : bool.
Variable communicate : string + list string → bool → string.



Lemma endswith_inv suffix s :
  endswith suffix s = true → ∃ p, s = p +:+ suffix.
Proof.
  induction s as [|a s IH]; simpl.
  - destruct (bool_decide (EmptyString = suffix)) eqn:E; [|done].
    apply bool_decide_eq_true in E as <-. by exists EmptyString.
  - destruct (bool_decide (String a s = suffix)) eqn:E.
    + apply bool_decide_eq_true in E as <-. by exists EmptyString.
    + intros [p ->]%IH. by exists (String a p).
Qed.









Lemma occurs_split_once c s :
  occurs c s = true ↔ ∃ before after, split_once c s = Some (before, after).
Proof.
  induction s as [|a s IH]; simpl.
  - split; [done|]. by intros (? & ? & ?).
  - destruct (decide (a = c)) as [->|Hne].
    + rewrite bool_decide_eq_true_2 by done. simpl. split; eauto.
    + rewrite bool_decide_eq_false_2 by done. simpl. rewrite IH.
      destruct (split_once c s) as [[b af]|]; split; intros (? & ? & ?); eauto; done.
Qed.

Lemma refreshLine_cases (e : gmap string string) line :
  (∃ var val, assigns line var val ∧ refreshLine e line = <[var := val]> e)
  ∨ ((∀ var val, ¬ assigns line var val) ∧ refreshLine e line = e).
Proof.
  unfold refreshLine, assigns. destruct (occurs "=" line) eqn:Ho.
  - apply occurs_split_once in Ho as (var & val & ->).
    destruct (String.prefix "_" var) eqn:Hp; simpl.
    { right. split; [|done]. intros ? ? ([= <- <-] & ? & ?). congruence. }
    destruct (decide (var = "SHLVL"%string)) as [->|Hne].
    { right. split; [|done]. intros ? ? ([= <- <-] & ? & ?). done. }
    rewrite bool_decide_eq_false_2
      by (intros ->%list_elem_of_singleton; done).
    left. exists var, val. done.
  - right. split; [|done]. intros var val (E & _).
    assert (occurs "=" line = true) as Ht by (apply occurs_split_once; eauto).
    congruence.
Qed.

Lemma refresh_fold_unassigned lines var (e : gmap string string) :
  (∀ line val, line ∈ lines → ¬ assigns line var val) →
  foldl refreshLine e lines !! var = e !! var.
Proof.
  revert e. induction lines as [|line lines IH]; intros e Hno; [done|].
  simpl. rewrite IH by (intros l v Hl; apply Hno; by right).
  destruct (refreshLine_cases e line) as [(var' & val & Ha & ->)|[_ ->]]; [|done].
  destruct (decide (var' = var)) as [->|Hne].
  - exfalso. apply (Hno line val); [by left|done].
  - by rewrite lookup_insert_ne.
Qed.

Lemma refresh_fold_keeps lines var (e : gmap string string) :
  is_Some (e !! var) → is_Some (foldl refreshLine e lines !! var).
Proof.
  revert e. induction lines as [|line lines IH]; intros e Hs; [done|].
  simpl. apply IH.
  destruct (refreshLine_cases e line) as [(var' & val & Ha & ->)|[_ ->]]; [|done].
  destruct (decide (var' = var)) as [->|Hne].
  - rewrite lookup_insert_eq. eauto.
  - by rewrite lookup_insert_ne.
Qed.

(** [refreshEnviron]: a variable whose name starts with an underscore,
    and [SHLVL], are left alone; so is every variable that no line of the
    shell's output assigns; no variable is ever unset; and a variable that
    the output assigns ends up with the value of the last line that assigns
    it, everything after the first ['='] of that line. *)
Theorem refreshEnviron_spec (e : gmap string string) :
  (∀ var, String.prefix "_" var = true ∨ var = "SHLVL"%string →
     refreshEnviron linesep posix communicate e !! var = e !! var)
  ∧ (∀ var, is_Some (e !! var) →
       is_Some (refreshEnviron linesep posix communicate e !! var))
  ∧ (∀ var,
       (∀ line val,
          line ∈ splitlines
                   (shellOutput linesep communicate
                      (if posix then "/usr/bin/env" else "set") true true) →
          ¬ assigns line var val) →
       refreshEnviron linesep posix communicate e !! var = e !! var)
  ∧ (∀ var val before line after,
       splitlines (shellOutput linesep communicate
                     (if posix then "/usr/bin/env" else "set") true true)
       = before ++ line :: after →
       assigns line var val →
       (∀ line' val', line' ∈ after → ¬ assigns line' var val') →
       refreshEnviron linesep posix communicate e !! var = Some val).
Proof.
  unfold refreshEnviron. split_and!.
  - intros var Hex. apply refresh_fold_unassigned.
    intros line val _ (_ & Hp & Hs). destruct Hex; congruence.
  - intros var. apply refresh_fold_keeps.
  - intros var. apply refresh_fold_unassigned.
  - intros var val before line after -> Ha Hafter.
    rewrite foldl_app. simpl.
    rewrite refresh_fold_unassigned by done.
    destruct (refreshLine_cases (foldl refreshLine e before) line)
      as [(var' & val' & (E' & _) & ->)|[Hno _]].
    + destruct Ha as (E & _). rewrite E in E'. injection E' as <- <-.
      apply lookup_insert_eq.
    + by apply Hno in Ha.
Qed.

End ProcessMore.


(** [refreshEnviron] on a four-line [env] listing: [HOME] and [X] are
    set, [X] to everything after its first ['='], [SHLVL] and [_] are not. *)
Example refreshEnviron_listing :
  refreshEnviron (String "010"%char EmptyString) true
    (λ _ _, "HOME=/root" +:+ String "010"%char
              ("SHLVL=2" +:+ String "010"%char
                 ("_=/usr/bin/env" +:+ String "010"%char
                    ("X=a=b" +:+ String "010"%char EmptyString))))
    ∅
  = {["HOME" := "/root"; "X" := "a=b"]}.
Proof. vm_compute. reflexivity. Qed.

End ShellMore.

(** ** More on the reporter: what the commands keep and what they return *)

Module ReporterMore.
Import PyStr PyStrFacts Reporter ReporterFacts.

(** The double-quote character, written out. *)
Local Abbreviation dquote := (String "034"%char EmptyString).

Section ClosedForms.
Context `{Host}.
Implicit Types (s : State) (cb : Msg → M unit).

(** The last statement of [doIt] in one step. *)
Lemma installCallback_closed s :
  installCallback s
  = if messageIdSet s then (Ok tt, s)
    else match hostAddCallback (host s) with
         | (h', Some id) =>
             (Ok tt,
              set_messageId id
                (set_messageIdSet true
                   (set_callbacks (callbacks s ++ [id]) (set_host h' s))))
         | (h', None) =>
             (Raise UnboundLocalError, set_messageIdSet false (set_host h' s))
         end.
Proof.
  unfold installCallback, bind at 1, get.
  destruct (messageIdSet s); [done|].
  unfold bind at 1, createCallback, bind at 1, get.
  by destruct (hostAddCallback (host s)) as [h' [id|]].
Qed.

(** [Reporter(name, **kwargs)] in one step: the object is allocated with
    the defaults updated by the keywords and an empty history, the host is
    asked for a scroll field, and the object takes the name the host
    answers. *)
Lemma Reporter_init_closed cb nm kwargs s :
  drops cb →
  Reporter_init cb nm kwargs s
  = match hostAnswer s (createCmd nm) with
    | Some result =>
        (Ok (length (heap s)),
         afterCommand true (createCmd nm)
           (set_heap (heap s ++ [mkReporter result
                                   (dict_update defaultFilters kwargs) []]) s))
    | None =>
        (Raise RuntimeError,
         afterCommand false (createCmd nm)
           (set_heap (heap s ++ [mkReporter nm
                                   (dict_update defaultFilters kwargs) []]) s))
    end.
Proof.
  intros Hcb. unfold Reporter_init, bind at 1, newObj.
  set (r0 := mkReporter nm (dict_update defaultFilters kwargs) []).
  unfold bind at 1. rewrite executeCommandResult_drops by done.
  unfold hostAnswer. simpl host.
  destruct ((hostExecute (host s) (createCmd nm)).2) as [result|] eqn:E; [|done].
  unfold bind at 1, getObj. simpl heap.
  rewrite list_lookup_middle by done.
  unfold bind at 1, setObj. simpl heap.
  rewrite decide_True by (rewrite length_app; simpl; lia).
  unfold bind, ret, afterCommand, set_heap. simpl. do 2 f_equal.
  replace (length (heap s)) with (length (heap s) + 0)%nat by lia.
  by rewrite insert_app_r.
Qed.

End ClosedForms.

Section Generic.
Context `{Host}.
Implicit Types (s : State) (cb : Msg → M unit) (l : list nat).

(** A property [J] of the state that does not look at [callbackState],
    [sourceType], the host or the record of issued commands, and that each
    kind of update below keeps. Every lemma of this section uses only the
    closure conditions of the updates its operation can make. *)
Variable J : State → Prop.
Hypothesis J_frame : ∀ s s',
  J s → heap s' = heap s → reporters s' = reporters s →
  callbacks s' = callbacks s → messageIdSet s' = messageIdSet s →
  messageId s' = messageId s → globalFilters s' = globalFilters s →
  cmdReporter s' = cmdReporter s → J s'.
Hypothesis J_append : ∀ s a r line,
  Inv s → J s → heap s !! a = Some r →
  J (set_heap (<[a := mkReporter (name r) (filters r) (history r ++ [line])]>
                 (heap s)) s).
Hypothesis J_filters : ∀ s a r flt,
  Inv s → J s → heap s !! a = Some r →
  J (set_heap (<[a := mkReporter (name r) (dict_update (filters r) flt) (history r)]>
                 (heap s)) s).
Hypothesis J_alloc : ∀ s nm kwargs,
  Inv s → J s →
  J (set_heap (heap s ++ [mkReporter nm (dict_update defaultFilters kwargs) []]) s).
Hypothesis J_register : ∀ s k a,
  Inv s → J s → (a < length (heap s))%nat → a ∉ (reporters s).*2 →
  J (set_reporters (dict_setitem (reporters s) k a) s).
Hypothesis J_globals : ∀ s flt,
  Inv s → J s → J (set_globalFilters (dict_update (globalFilters s) flt) s).
Hypothesis J_cmdReporter : ∀ s v, J s → J (set_cmdReporter v s).
Hypothesis J_install : ∀ s h' id,
  Inv s → J s → messageIdSet s = false →
  J (set_messageId id
       (set_messageIdSet true
          (set_callbacks (callbacks s ++ [id]) (set_host h' s)))).

Lemma InvJ_frame l s s' :
  InvJ J l s → heap s' = heap s → reporters s' = reporters s →
  callbacks s' = callbacks s → messageIdSet s' = messageIdSet s →
  messageId s' = messageId s → globalFilters s' = globalFilters s →
  cmdReporter s' = cmdReporter s → InvJ J l s'.
Proof.
  intros [HI HJ] Eh Er Ec Em Ei Eg Ecr. split.
  - by eapply InvL_frame.
  - by eapply J_frame.
Qed.

Lemma InvJ_mono l l' s : InvJ J l s → (∀ a, a ∈ l' → a ∈ l) → InvJ J l' s.
Proof. intros [HI HJ] Hsub. split; [by eapply InvL_mono|done]. Qed.

Lemma InvJ_valid l s a : InvJ J l s → a ∈ l → (a < length (heap s))%nat.
Proof. intros [HI _] Ha. by eapply InvL_valid. Qed.

Lemma G_executeCommand l cb cmd :
  drops cb →
  hoare (InvJ J l) (executeCommand cb cmd) (λ _, InvJ J l) (InvJ J l).
Proof.
  intros Hcb s HI. rewrite executeCommand_drops by done.
  destruct (hostAnswer s cmd); by eapply InvJ_frame.
Qed.

Lemma G_appendHistory l cb a line :
  drops cb → a ∈ l →
  hoare (InvJ J l) (appendHistory cb a line) (λ _, InvJ J l) (InvJ J l).
Proof.
  intros Hcb Ha s HI.
  destruct (lookup_lt_is_Some_2 _ _ (InvJ_valid _ _ _ HI Ha)) as [r Hr].
  rewrite (appendHistory_drops _ _ _ _ r) by done.
  assert (InvJ J l (appended a line s)) as H1.
  { unfold appended. rewrite Hr. destruct HI as [HI HJ]. split.
    - eapply InvL_update; [done..|]. simpl. by eapply InvL_filters.
    - apply J_append; [apply HI|done..]. }
  pose proof (lineFilter_proper (filters r) line) as Hp.
  destruct (lineFilter (filters r) line) as [[t|]|e| |]; try done.
  rewrite executeCommand_drops by done.
  destruct (hostAnswer _ _); by eapply InvJ_frame.
Qed.

Lemma G_appendAll l cb addrs line :
  drops cb → (∀ a, a ∈ addrs → a ∈ l) →
  hoare (InvJ J l) (appendAll cb addrs line) (λ _, InvJ J l) (InvJ J l).
Proof.
  intros Hcb. induction addrs as [|a addrs IH]; simpl; intros Hsub.
  - by apply hoare_ret.
  - eapply hoare_bind.
    + apply G_appendHistory; [done|]. apply Hsub. by left.
    + intros ?. apply IH. intros a' Ha'. apply Hsub. by right.
Qed.

Lemma G_cmdCallback_body l cb msg :
  drops cb →
  hoare (InvJ J l) (cmdCallback_body cb msg) (λ _, InvJ J l) (InvJ J l).
Proof.
  intros Hcb s HI. destruct (callbackState s) eqn:Hs.
  - rewrite cmdCallback_body_true by done.
    assert (∀ a, a ∈ (pyItems (reporters s)).*2 → a ∈ (reporters s).*2 ++ l)
      as Hsub.
    { intros a Hin. rewrite pyItems_values in Hin. apply elem_of_app. by left. }
    pose proof (G_appendAll ((reporters s).*2 ++ l) cb
                  (pyItems (reporters s)).*2
                  (lineFor msg (sourceType s)) Hcb Hsub
                  (set_sourceType (newSourceType msg (sourceType s)) s)) as Ha.
    simpl in Ha.
    match type of Ha with ?P → _ => assert P as HP end.
    { destruct HI as [HI HJ]. split.
      - apply InvL_registered in HI. by eapply InvL_frame.
      - by eapply J_frame. }
    specialize (Ha HP).
    destruct (appendAll _ _ _ _) as [[[]|e| |] s']; try done;
      (eapply InvJ_mono; [exact Ha|]; intros a Hin; apply elem_of_app; by right).
  - by rewrite cmdCallback_body_drops.
Qed.

Lemma G_hostCall (P : State → Prop) (c : M unit) :
  hoare P c (λ _, P) P → hoare P (hostCall c) (λ _, P) P.
Proof.
  intros Hc s HI. specialize (Hc s HI). unfold hostCall.
  by destruct (c s) as [[[]|e| |] s'].
Qed.

Lemma G_times (P : State → Prop) n (c : M unit) :
  hoare P c (λ _, P) P → hoare P (times n c) (λ _, P) P.
Proof.
  intros Hc. induction n as [|n IH]; simpl.
  - by apply hoare_ret.
  - eapply hoare_bind; [apply Hc|]. intros ?. apply IH.
Qed.

Lemma G_deliver (P : State → Prop) cb msgs :
  (∀ m, hoare P (cb m) (λ _, P) P) → hoare P (deliver cb msgs) (λ _, P) P.
Proof.
  intros Hcb. induction msgs as [|m msgs IH]; simpl.
  - by apply hoare_ret.
  - apply hoare_get_bind. intros s0.
    eapply hoare_bind.
    { eapply hoare_weaken; [|apply G_times, G_hostCall, Hcb]. by intros s [? _]. }
    intros ?. apply IH.
Qed.

Lemma G_refreshHistory l cb a :
  drops cb → a ∈ l →
  hoare (InvJ J l) (refreshHistory cb a) (λ _, InvJ J l) (InvJ J l).
Proof.
  intros Hcb Ha. apply hoare_getObj_bind.
  { intros s HI. by eapply InvJ_valid. }
  intros r. apply hoare_lift_bind; [apply refreshLoop_proper|by intros s [? _]|].
  intros output _.
  eapply hoare_weaken; [|by apply G_executeCommand]. by intros s [? _].
Qed.

Lemma G_setFilters l cb a flt :
  drops cb → a ∈ l →
  hoare (InvJ J l) (setFilters cb a flt) (λ _, InvJ J l) (InvJ J l).
Proof.
  intros Hcb Ha. apply hoare_getObj_bind.
  { intros s HI. by eapply InvJ_valid. }
  intros r. eapply hoare_bind with (Q := λ _, InvJ J l).
  { intros s [[HI HJ] Hr]. unfold setObj.
    rewrite decide_True by (by eapply lookup_lt_Some). split.
    - eapply InvL_update; [done..|]. simpl. apply wf_filters_update.
      by eapply InvL_filters.
    - apply J_filters; [apply HI|done..]. }
  intros ?. by apply G_refreshHistory.
Qed.

Lemma G_writeOutputFile l text :
  hoare (InvJ J l) (writeOutputFile text) (λ _, InvJ J l) (InvJ J l).
Proof.
  intros s HI. unfold writeOutputFile, bind, get.
  destruct (hostFileAppend _ _ _); [|done]. by eapply InvJ_frame.
Qed.

Lemma G_setGlobalFilters l cb a flt :
  drops cb →
  hoare (InvJ J l) (setGlobalFilters cb a flt) (λ _, InvJ J l) (InvJ J l).
Proof.
  intros Hcb. apply hoare_get_bind. intros s0.
  eapply hoare_bind.
  { eapply hoare_weaken; [|apply G_writeOutputFile]. by intros s [? _]. }
  intros ?. eapply hoare_bind; [by apply G_executeCommand|].
  intros ?. apply hoare_modify. intros s [HI HJ]. split.
  - by eapply InvL_frame.
  - apply J_globals; [apply HI|done].
Qed.

Lemma G_getGlobalFilter l key :
  hoare (InvJ J l) (getGlobalFilter key) (λ _, InvJ J l) (InvJ J l).
Proof.
  intros s HI. unfold getGlobalFilter, bind, get.
  by destruct (globalFilters s !! key).
Qed.

Lemma G_clear l cb a :
  drops cb → a ∈ l → hoare (InvJ J l) (clear cb a) (λ _, InvJ J l) (InvJ J l).
Proof.
  intros Hcb Ha. apply hoare_getObj_bind.
  { intros s HI. by eapply InvJ_valid. }
  intros r. eapply hoare_weaken; [|by apply G_executeCommand]. by intros s [? _].
Qed.

Lemma G_text l cb a t :
  drops cb → a ∈ l → hoare (InvJ J l) (text cb a t) (λ _, InvJ J l) (InvJ J l).
Proof.
  intros Hcb Ha. apply hoare_getObj_bind.
  { intros s HI. by eapply InvJ_valid. }
  intros r. eapply hoare_weaken; [|by apply G_executeCommand]. by intros s [? _].
Qed.

Lemma G_lookupReporter l nm :
  hoare (InvJ J l) (lookupReporter nm) (λ a, InvJ J (a :: l)) (InvJ J l).
Proof.
  intros s [HI HJ].
  pose proof (hoare_lookupReporter l nm s HI) as Hl.
  destruct (lookupReporter nm s) as [[a|e| |] s'] eqn:E; try done;
    unfold lookupReporter, bind, get, lift in E;
    destruct (ReporterDict_getitem (pyItems (reporters s)) nm); by simplify_eq.
Qed.

Lemma G_installCallback l :
  hoare (InvJ J l) installCallback (λ _, InvJ J l) (InvJ J l).
Proof.
  intros s [HI HJ].
  pose proof (hoare_installCallback l s HI) as Hl.
  rewrite installCallback_closed in *.
  destruct (messageIdSet s) eqn:Hm; [done|].
  destruct (hostAddCallback (host s)) as [h' [id|]].
  - split; [done|]. apply J_install; [apply HI|done..].
  - split; [done|]. by eapply J_frame.
Qed.

Lemma G_Reporter_init l cb nm kwargs :
  drops cb →
  hoare (InvJ J l) (Reporter_init cb nm kwargs)
    (λ a s, InvJ J (a :: l) s ∧ a ∉ (reporters s).*2) (InvJ J l).
Proof.
  intros Hcb s [HI HJ].
  pose proof (hoare_Reporter_init l cb nm kwargs Hcb s HI) as Hl.
  rewrite Reporter_init_closed in * by done.
  destruct (hostAnswer s (createCmd nm)) as [result|].
  - destruct Hl as [Hl Hfresh]. split; [split; [done|]|done].
    eapply J_frame; [apply (J_alloc s result kwargs); [apply HI|done]|done..].
  - split; [done|].
    eapply J_frame; [apply (J_alloc s nm kwargs); [apply HI|done]|done..].
Qed.

Lemma G_doIt_body cb argData :
  drops cb →
  hoare (InvJ J []) (doIt_body cb argData) (λ _, InvJ J []) (InvJ J []).
Proof.
  intros Hcb. unfold doIt_body.
  assert (∀ a s, InvJ J [a] s → InvJ J [] s) as Hdown.
  { intros a s HI. eapply InvJ_mono; [exact HI|]. by intros ? ?%elem_of_nil. }
  destruct (isQuery argData).
  - eapply hoare_bind; [apply G_lookupReporter|]. intros a.
    apply (hoare_post _ _ (λ _, InvJ J [a]) _ (InvJ J [a]));
      [intros _ s; apply Hdown|intros s; apply Hdown|].
    apply hoare_getObj_bind.
    { intros s HI. eapply InvJ_valid; [exact HI|by left]. }
    intros reporter.
    eapply hoare_weaken; [by intros s [HI _]; exact HI|].
    destruct (firstFlagSet argData (pyItems filterFlags)) as [key|].
    { destruct (filters reporter !! key); [by apply hoare_ret|by apply hoare_raise]. }
    destruct (firstFlagSet argData (pyItems globalFilterFlags)) as [key|].
    { apply G_getGlobalFilter. }
    apply hoare_get_bind. intros s0.
    eapply hoare_bind.
    { eapply hoare_weaken; [|apply G_installCallback]. by intros s [? _]. }
    intros ?. by apply hoare_ret.
  - apply hoare_lift_bind; [apply collectFlags_proper|done|]. intros flt _.
    apply hoare_lift_bind; [apply collectFlags_proper|done|]. intros gflt _.
    eapply hoare_bind with (Q := λ a, InvJ J [a]).
    + destruct (isEdit argData).
      * eapply hoare_bind; [apply G_lookupReporter|]. intros a.
        apply (hoare_post _ _ (λ a', InvJ J [a']) _ (InvJ J [a]));
          [done|intros s; apply Hdown|].
        assert (a ∈ [a]) as Ha by (by left).
        eapply hoare_bind with (Q := λ _, InvJ J [a]).
        { destruct (bool_decide (flt = ∅)); [by apply hoare_ret|by apply G_setFilters]. }
        intros ?. eapply hoare_bind with (Q := λ _, InvJ J [a]).
        { destruct (bool_decide (gflt = ∅));
            [by apply hoare_ret|by apply G_setGlobalFilters]. }
        intros ?. eapply hoare_bind with (Q := λ _, InvJ J [a]);
          [|intros ?; by apply hoare_ret].
        destruct (isFlagSet argData kClear.1); [by apply G_clear|].
        destruct (isFlagSet argData kText.1).
        { apply hoare_lift_bind; [apply flagArgumentString_proper|done|].
          intros t _. by apply G_text. }
        destruct (isFlagSet argData kCmdReporter.1); [|by apply hoare_ret].
        apply hoare_lift_bind; [apply flagArgumentString_proper|done|]. intros rep _.
        apply hoare_modify. intros s [HI HJ]. split.
        -- by eapply InvL_frame.
        -- by apply J_cmdReporter.
      * eapply hoare_bind; [by apply G_Reporter_init|]. intros a.
        apply (hoare_post _ _ (λ a', InvJ J [a']) _ (InvJ J [a]));
          [done|intros s; apply Hdown|].
        apply hoare_getObj_bind.
        { intros s [HI _]. eapply InvJ_valid; [exact HI|by left]. }
        intros reporter.
        eapply hoare_bind with (Q := λ _, InvJ J [a]); [|intros ?; by apply hoare_ret].
        apply hoare_modify. intros s [[[HI HJ] Hfresh] _].
        assert (a < length (heap s))%nat as Hv
          by (eapply InvL_valid; [exact HI|by left]).
        split.
        -- by apply InvL_register.
        -- apply J_register; [apply HI|done..].
    + intros a.
      apply (hoare_post _ _ (λ _, InvJ J [a]) _ (InvJ J [a]));
        [intros _ s; apply Hdown|intros s; apply Hdown|].
      apply hoare_getObj_bind.
      { intros s HI. eapply InvJ_valid; [exact HI|by left]. }
      intros reporter.
      eapply hoare_bind.
      { eapply hoare_weaken; [|apply G_installCallback]. by intros s [? _]. }
      intros ?. by apply hoare_ret.
Qed.

Lemma G_hostEmit fuel msgs :
  hoare (InvJ J []) (hostEmit (S (S fuel)) msgs) (λ _, InvJ J []) (InvJ J []).
Proof.
  apply G_deliver. intros m. apply G_cmdCallback_body, cmdCallback_drops.
Qed.

(** A property with these closure conditions is kept by every step from
    a state that satisfies the invariant. *)
Lemma G_step s s' : step s s' → Inv s → J s → J s'.
Proof.
  intros Hstep HI HJ.
  assert (InvJ J [] s) as Hstart.
  { split; [split; [done|]|done]. intros a Ha. by apply elem_of_nil in Ha. }
  destruct Hstep as [fuel argData s0 o s1 Hfuel E | fuel msgs s0 o s1 Hfuel E].
  - destruct fuel as [|fuel]; [lia|].
    pose proof (G_doIt_body (cmdCallback (S fuel)) argData
                  (cmdCallback_drops fuel) s0 Hstart) as Hd.
    unfold doIt in E. rewrite E in Hd. destruct o; try done; apply Hd.
  - destruct fuel as [|[|fuel]]; [lia..|].
    pose proof (G_hostEmit fuel msgs s0 Hstart) as Hd.
    rewrite E in Hd. destruct o as [[]| | |]; try done; apply Hd.
Qed.

End Generic.

Section Kept.
Context `{Host}.
Implicit Types (s : State).

Lemma dict_setitem_keys_mono {V} (items : list (string * V)) k v x :
  x ∈ items.*1 → x ∈ (dict_setitem items k v).*1.
Proof.
  induction items as [|[k0 v0] items IH]; simpl; [by intros ?%elem_of_nil|].
  destruct (decide (k0 = k)) as [->|Hne]; simpl; [done|].
  intros [->|Hx]%elem_of_cons; [by left|right; by apply IH].
Qed.

Lemma keepsAll_refl s : keepsAll s s.
Proof. split; [|done]. intros a r Hr. exists r. by split_and!. Qed.

Lemma keepsAll_update s0 s a r r' :
  keepsAll s0 s → heap s !! a = Some r →
  name r' = name r → history r `prefix_of` history r' →
  keepsAll s0 (set_heap (<[a := r']> (heap s)) s).
Proof.
  intros [Hh Hk] Hr Hn Hp. split; [|done]. intros a0 r0 Hr0.
  destruct (Hh a0 r0 Hr0) as (r1 & Hr1 & Hn1 & Hp1). simpl.
  destruct (decide (a0 = a)) as [->|Hne].
  - exists r'. rewrite list_lookup_insert_eq by (by eapply lookup_lt_Some).
    assert (r1 = r) as -> by congruence.
    split_and!; [done|congruence|by etrans].
  - exists r1. by rewrite list_lookup_insert_ne.
Qed.

(** Nothing a plug-in command or a delivery of host output does loses a
    reporter object, changes its name, shortens or rewrites its history, or
    takes a key out of the registry. *)
Theorem steps_keep_all s s' :
  reachable s → rtc step s s' → keepsAll s s'.
Proof.
  intros Hreach Hsteps. apply reachable_Inv in Hreach.
  assert (∀ s1, rtc step s s1 → Inv s1 ∧ keepsAll s s1) as Hall; [|by apply Hall].
  intros s1 Hrtc. apply rtc_nsteps in Hrtc as [n Hn]. revert s1 Hn.
  induction n as [|n IH]; intros s1 Hn.
  - inversion Hn; subst. split; [done|apply keepsAll_refl].
  - apply nsteps_inv_r in Hn as (s2 & Hn & Hstep).
    destruct (IH s2 Hn) as [HI HK]. split; [by eapply Inv_step|].
    eapply (G_step (keepsAll s)); try done.
    + intros ? ? [Hh Hk] Eh Er _ _ _ _ _. unfold keepsAll. by rewrite Eh, Er.
    + intros ? a r line _ HJ Hr. eapply keepsAll_update; [done..|].
      by apply prefix_app_r.
    + intros ? a r flt _ HJ Hr. by eapply keepsAll_update.
    + intros ? nm kwargs _ [Hh Hk]. split; [|done]. intros a0 r0 Hr0.
      destruct (Hh a0 r0 Hr0) as (r1 & Hr1 & ?). exists r1. split; [|done].
      simpl. by apply lookup_app_l_Some.
    + intros ? k a _ [Hh Hk] _ _. split; [done|]. intros k0 Hk0. simpl.
      by apply dict_setitem_keys_mono, Hk.
Qed.

Lemma idInv_step s s' : step s s' → Inv s → idInv s → idInv s'.
Proof.
  intros Hstep HI HJ. eapply (G_step idInv); try done.
  - intros ? ? HJ0 _ _ Ec Em Ei _ _. unfold idInv. by rewrite Ec, Em, Ei.
  - intros ? h' id [_ Hc] _ Hm _. unfold cbInv in Hc. rewrite Hm in Hc.
    apply nil_length_inv in Hc. simpl. by rewrite Hc.
Qed.

Lemma globalsInv_step s s' : step s s' → Inv s → globalsInv s → globalsInv s'.
Proof.
  intros Hstep HI HJ. eapply (G_step globalsInv); try done.
  - intros ? ? HJ0 _ _ _ _ _ Eg _. unfold globalsInv. by rewrite Eg.
  - intros ? flt _ HJ0 key Hkey. simpl. unfold dict_update.
    apply lookup_union_is_Some. right. by apply HJ0.
Qed.

(** In every reachable state [messageId] is the id of the one installed
    callback, and [Reporter.globalFilters] has its three keys. *)
Lemma reachable_ids s : reachable s → Inv s ∧ idInv s ∧ globalsInv s.
Proof.
  intros [h Hrtc].
  assert (Inv (initial h) ∧ idInv (initial h) ∧ globalsInv (initial h)) as Hstart.
  { split_and!; [apply Inv_initial|done|].
    intros key Hkey. simpl in Hkey.
    repeat (apply elem_of_cons in Hkey as [->|Hkey]; [eexists; reflexivity|]).
    by apply elem_of_nil in Hkey. }
  induction Hrtc as [|s1 s2 s3 Hstep _ IH]; [done|].
  apply IH. destruct Hstart as (HI & Hid & Hg). split_and!.
  - by eapply Inv_step.
  - by eapply idInv_step.
  - by eapply globalsInv_step.
Qed.

Lemma defaultFilters_keys key kwargs :
  key ∈ filterFlags.*1 →
  is_Some (dict_update defaultFilters kwargs !! key).
Proof.
  intros Hkey. unfold dict_update. apply lookup_union_is_Some. right.
  simpl in Hkey.
  repeat (apply elem_of_cons in Hkey as [->|Hkey]; [eexists; reflexivity|]).
  by apply elem_of_nil in Hkey.
Qed.

Lemma filtersInv_update s a r r' :
  filtersInv s → heap s !! a = Some r →
  (∀ key, is_Some (filters r !! key) → is_Some (filters r' !! key)) →
  filtersInv (set_heap (<[a := r']> (heap s)) s).
Proof.
  intros HJ Hr Hkeys a0 r0 key Hr0 Hkey. simpl in Hr0.
  destruct (decide (a0 = a)) as [->|Hne].
  - rewrite list_lookup_insert_eq in Hr0 by (by eapply lookup_lt_Some).
    injection Hr0 as <-. apply Hkeys. by eapply HJ.
  - rewrite list_lookup_insert_ne in Hr0 by done. by eapply HJ.
Qed.

Lemma filtersInv_step s s' : step s s' → Inv s → filtersInv s → filtersInv s'.
Proof.
  intros Hstep HI HJ. eapply (G_step filtersInv); try done.
  - intros ? ? HJ0 Eh _ _ _ _ _ _. unfold filtersInv. by rewrite Eh.
  - intros ? a r line _ HJ0 Hr. by eapply filtersInv_update.
  - intros ? a r flt _ HJ0 Hr. eapply filtersInv_update; [done..|].
    intros key Hk. simpl. unfold dict_update. apply lookup_union_is_Some. by right.
  - intros ? nm kwargs _ HJ0 a0 r0 key Hr0 Hkey. simpl in Hr0.
    apply lookup_app_Some in Hr0 as [Hr0|[_ Hr0]]; [by eapply HJ0|].
    destruct (a0 - length (heap s0))%nat; [|done]. simpl in Hr0.
    injection Hr0 as <-. by apply defaultFilters_keys.
Qed.

Lemma reachable_filters s : reachable s → filtersInv s.
Proof.
  intros [h Hrtc].
  assert (Inv (initial h) ∧ filtersInv (initial h)) as Hstart.
  { split; [apply Inv_initial|]. intros a r key Hr. by destruct a. }
  assert (Inv s ∧ filtersInv s) as [_ ?]; [|done].
  induction Hrtc as [|s1 s2 s3 Hstep _ IH]; [done|].
  apply IH. destruct Hstart as (HI & Hf). split.
  - by eapply Inv_step.
  - by eapply filtersInv_step.
Qed.

Lemma firstFlagSet_table d table key :
  firstFlagSet d table = Some key → key ∈ table.*1.
Proof.
  unfold firstFlagSet. destruct (find _ table) as [e|] eqn:E; [|done].
  intros [= <-]. apply find_some in E as [Hin _].
  apply list_elem_of_fmap. exists e. split; [done|]. by apply list_elem_of_In.
Qed.

Lemma firstFlagSet_unique d table key :
  key ∈ table.*1 → isFlagSet d key = true →
  (∀ key', key' ∈ table.*1 → isFlagSet d key' = true → key' = key) →
  firstFlagSet d table = Some key.
Proof.
  unfold firstFlagSet.
  induction table as [|[k e] table IH]; intros Hin Hset Honly; simpl.
  - by apply elem_of_nil in Hin.
  - destruct (isFlagSet d k) eqn:Ek.
    + simpl. f_equal. apply Honly; [by left|done].
    + apply IH; [|done|].
      * simpl in Hin. apply elem_of_cons in Hin as [->|Hin]; [congruence|done].
      * intros key' Hin'. apply Honly. by right.
Qed.

Lemma firstFlagSet_none d table :
  (∀ key, key ∈ table.*1 → isFlagSet d key = false) →
  firstFlagSet d table = None.
Proof.
  unfold firstFlagSet. induction table as [|[k e] table IH]; intros Hno; [done|].
  simpl. rewrite (Hno k) by (by left). apply IH. intros key Hin. apply Hno. by right.
Qed.

(** A query ([-q]) in a reachable state. For a name that no registry key
    answers it raises [KeyError]. For a known reporter, the first filter
    flag that is set, in the order in which [filterFlags.items()] comes,
    returns that reporter's value of the filter; with no filter flag set,
    the first global flag that is set returns the value in
    [Reporter.globalFilters]. When one filter flag only is set, or no filter
    flag and one global flag only, the order plays no part and the query
    returns that flag's value. In all these cases the state is left exactly
    as it was, so such a query never installs the output callback. *)
Theorem doIt_query fuel argData s :
  reachable s → isQuery argData = true →
  ((∀ key a, (key, a) ∈ reporters s →
      ¬ split "|" (default kPluginCmdName (commandArgument0 argData))
          `suffix_of` split "|" key) →
   doIt fuel argData s = (Raise KeyError, s))
  ∧ (∀ a, ReporterDict_getitem (pyItems (reporters s))
            (default kPluginCmdName (commandArgument0 argData)) = Ok a →
       ∃ r, heap s !! a = Some r
         ∧ (∀ key, firstFlagSet argData (pyItems filterFlags) = Some key →
              ∃ v, filters r !! key = Some v ∧ doIt fuel argData s = (Ok v, s))
         ∧ (firstFlagSet argData (pyItems filterFlags) = None →
            ∀ key, firstFlagSet argData (pyItems globalFilterFlags) = Some key →
              ∃ v, globalFilters s !! key = Some v
                   ∧ doIt fuel argData s = (Ok v, s))
         ∧ (∀ key, key ∈ filterFlags.*1 → isFlagSet argData key = true →
              (∀ key', key' ∈ filterFlags.*1 → isFlagSet argData key' = true →
                 key' = key) →
              ∃ v, filters r !! key = Some v ∧ doIt fuel argData s = (Ok v, s))
         ∧ (∀ key, key ∈ globalFilterFlags.*1 → isFlagSet argData key = true →
              (∀ key', key' ∈ filterFlags.*1 → isFlagSet argData key' = false) →
              (∀ key', key' ∈ globalFilterFlags.*1 →
                 isFlagSet argData key' = true → key' = key) →
              ∃ v, globalFilters s !! key = Some v
                   ∧ doIt fuel argData s = (Ok v, s))).
Proof.
  intros Hreach Hq.
  pose proof (reachable_ids s Hreach) as (HI & _ & Hg).
  pose proof (reachable_filters s Hreach) as Hf.
  split.
  - intros Hno.
    assert (ReporterDict_getitem (pyItems (reporters s))
              (default kPluginCmdName (commandArgument0 argData))
            = Raise KeyError) as Hk.
    { apply ReporterDictFacts.getitem_KeyError. intros key a Hin.
      apply Hno with a. by apply pyItems_elem. }
    unfold doIt, doIt_body. rewrite Hq.
    unfold bind at 1, lookupReporter, bind, get, lift. by rewrite Hk.
  - intros a Ha.
    assert (a < length (heap s))%nat as Hv.
    { destruct HI as [(_ & _ & Hv & _) _]. apply Hv.
      apply getitem_elem in Ha. by rewrite pyItems_values in Ha. }
    destruct (lookup_lt_is_Some_2 _ _ Hv) as [r Hr]. exists r. split; [done|].
    assert (∀ key, firstFlagSet argData (pyItems filterFlags) = Some key →
              ∃ v, filters r !! key = Some v ∧ doIt fuel argData s = (Ok v, s))
      as Hfirst.
    { intros key Hk.
      assert (key ∈ filterFlags.*1) as Hin.
      { apply firstFlagSet_table in Hk. by rewrite pyItems_keys in Hk. }
      destruct (Hf a r key Hr Hin) as [v Hfv].
      exists v. split; [done|]. unfold doIt, doIt_body. rewrite Hq.
      unfold bind at 1, lookupReporter, bind at 1, get, lift. rewrite Ha.
      unfold bind at 1, getObj. rewrite Hr, Hk. by rewrite Hfv. }
    assert (firstFlagSet argData (pyItems filterFlags) = None →
            ∀ key, firstFlagSet argData (pyItems globalFilterFlags) = Some key →
              ∃ v, globalFilters s !! key = Some v
                   ∧ doIt fuel argData s = (Ok v, s)) as Hglobal.
    { intros Hnone key Hk.
      assert (key ∈ globalFilterFlags.*1) as Hin.
      { apply firstFlagSet_table in Hk. by rewrite pyItems_keys in Hk. }
      destruct (Hg key Hin) as [v Hgv].
      exists v. split; [done|]. unfold doIt, doIt_body. rewrite Hq.
      unfold bind at 1, lookupReporter, bind at 1, get, lift. rewrite Ha.
      unfold bind at 1, getObj. rewrite Hr, Hnone, Hk.
      unfold getGlobalFilter, bind, get. by rewrite Hgv. }
    split_and!; [done..| |].
    + intros key Hin Hset Honly. apply Hfirst.
      apply firstFlagSet_unique; [by rewrite pyItems_keys|done|].
      intros key' Hin'. apply Honly. by rewrite pyItems_keys in Hin'.
    + intros key Hin Hset Hnof Honly. apply Hglobal.
      * apply firstFlagSet_none. intros key' Hin'. apply Hnof.
        by rewrite pyItems_keys in Hin'.
      * apply firstFlagSet_unique; [by rewrite pyItems_keys|done|].
        intros key' Hin'. apply Honly. by rewrite pyItems_keys in Hin'.
Qed.

End Kept.

Section UnloadFacts.
Context `{Host}.
Variable hostRemoveCallback : H → Z → option H.
Variable hostDeregisterCommand : H → string → option H.

(** [uninitializePlugin] from a reachable state: when the host accepts
    both calls no output callback is left installed; when it refuses to
    remove the callback the command is not deregistered either; reporters
    and registry are as before, and [messageIdSet] is not reset. *)
Theorem uninitializePlugin_spec s :
  reachable s →
  ∃ o s',
    uninitializePlugin hostRemoveCallback hostDeregisterCommand s = (o, s')
    ∧ heap s' = heap s ∧ reporters s' = reporters s
    ∧ messageIdSet s' = messageIdSet s
    ∧ (o = Ok tt → callbacks s' = [])
    ∧ (messageIdSet s = true → hostRemoveCallback (host s) (messageId s) = None →
       o = Raise RuntimeError ∧ s' = s)
    ∧ (o = Ok tt ∨ o = Raise RuntimeError).
Proof.
  intros Hreach. pose proof (reachable_ids s Hreach) as ([_ Hc] & Hid & _).
  unfold uninitializePlugin, bind, removeCallback. unfold cbInv in Hc.
  destruct (messageIdSet s) eqn:Hm.
  - specialize (Hid Hm).
    destruct (hostRemoveCallback (host s) (messageId s)) as [h'|] eqn:Er.
    + simpl. destruct (hostDeregisterCommand h' kPluginCmdName) as [h''|];
        eexists _, _; (split; [reflexivity|]); simpl;
        rewrite Hid; split_and!; try done; auto.
      * intros _. by rewrite filter_cons_False, filter_nil by (by intros ?).
    + eexists _, _. split; [reflexivity|]. split_and!; try done; auto.
  - apply nil_length_inv in Hc.
    destruct (hostDeregisterCommand (host s) kPluginCmdName) as [h''|];
      eexists _, _; (split; [reflexivity|]); simpl; split_and!; try done; auto.
Qed.

End UnloadFacts.

Section Registry.
Context `{Host} {V : Type}.
Implicit Types (items : list (string * V)) (v : V).

(** Whether a stored key answers a lookup. *)
Local Abbreviation answers lookupName key :=
  (split "|" lookupName `suffix_of` split "|" key).

Lemma NoDup_keys_value items k w w' :
  NoDup items.*1 → (k, w) ∈ items → (k, w') ∈ items → w = w'.
Proof.
  induction items as [|[k0 w0] items IH]; simpl; intros Hnd Hw Hw'.
  - by apply elem_of_nil in Hw.
  - apply NoDup_cons in Hnd as [Hnotin Hnd].
    assert (∀ x, (k0, x) ∈ items → False) as Hno.
    { intros x Hx. apply Hnotin. apply list_elem_of_fmap. by exists (k0, x). }
    apply elem_of_cons in Hw as [Ew|Hw];
      apply elem_of_cons in Hw' as [Ew'|Hw']; simplify_eq.
    + done.
    + by destruct (Hno w').
    + by destruct (Hno w).
    + by apply IH.
Qed.

Lemma dict_setitem_elem items key v k w :
  NoDup items.*1 →
  (k, w) ∈ dict_setitem items key v
  ↔ (k = key ∧ w = v) ∨ (k ≠ key ∧ (k, w) ∈ items).
Proof.
  induction items as [|[k0 w0] items IH]; simpl; intros Hnd.
  - rewrite list_elem_of_singleton. split.
    + intros [= -> ->]. by left.
    + intros [[-> ->]|[_ Hin]]; [done|by apply elem_of_nil in Hin].
  - apply NoDup_cons in Hnd as [Hnotin Hnd].
    destruct (decide (k0 = key)) as [->|Hne].
    + rewrite !elem_of_cons. split.
      * intros [[= -> ->]|Hin]; [by left|]. right. split; [|by right].
        intros ->. apply Hnotin. apply list_elem_of_fmap. by exists (key, w).
      * intros [[-> ->]|[Hne [[= -> ->]|Hin]]]; [by left|done|by right].
    + rewrite !elem_of_cons, (IH Hnd). split.
      * intros [[= -> ->]|[[-> ->]|[Hk Hin]]];
          [right; split; [done|by left]|by left|right; split; [done|by right]].
      * intros [[-> ->]|[Hk [[= -> ->]|Hin]]];
          [right; by left|by left|right; right; by split].
Qed.

(** Storing a value under [key] in the dictionary ([reporters[name] =
    reporter]) and then looking [lookupName] up, whatever the order in
    which the dictionary is iterated. The dictionary then holds the new
    value under [key] and what it held under every other key. A lookup
    that exactly one stored key answers returns that key's value: so a
    reporter stored under a name that no other key answers is found by that
    name. A lookup raises [KeyError] exactly when neither [key] nor an older
    key answers it. And a lookup that several keys answer returns the value
    of one of them. *)
Theorem setitem_then_getitem items key v lookupName :
  NoDup items.*1 →
  (∀ k w, (k, w) ∈ dict_setitem items key v
          ↔ (k = key ∧ w = v) ∨ (k ≠ key ∧ (k, w) ∈ items))
  ∧ (∀ k w, (k, w) ∈ dict_setitem items key v → answers lookupName k →
       (∀ k' w', (k', w') ∈ dict_setitem items key v →
          answers lookupName k' → k' = k) →
       ReporterDict_getitem (pyItems (dict_setitem items key v)) lookupName
       = Ok w)
  ∧ (ReporterDict_getitem (pyItems (dict_setitem items key v)) lookupName
     = Raise KeyError
     ↔ ¬ answers lookupName key
       ∧ ∀ k w, (k, w) ∈ items → ¬ answers lookupName k)
  ∧ (∀ w, ReporterDict_getitem (pyItems (dict_setitem items key v)) lookupName
          = Ok w →
       ∃ k, (k, w) ∈ dict_setitem items key v ∧ answers lookupName k).
Proof.
  intros Hnd.
  assert (NoDup (pyItems (dict_setitem items key v)).*1) as Hnd'.
  { rewrite pyItems_keys. by apply dict_setitem_NoDup_keys. }
  split_and!.
  - intros k w. by apply dict_setitem_elem.
  - intros k w Hin Hk Honly.
    destruct (ReporterDictFacts.getitem_outcome
                (pyItems (dict_setitem items key v)) lookupName)
      as [[w0 E]|E].
    + rewrite E. f_equal.
      apply ReporterDictFacts.getitem_Ok in E as (i & k0 & Hi & Hk0 & _).
      apply list_elem_of_lookup_2 in Hi.
      assert (k0 = k) as ->.
      { apply (Honly k0 w0); [by apply pyItems_elem_1|done]. }
      eapply NoDup_keys_value; [exact Hnd'|exact Hi|by apply pyItems_elem_2].
    + exfalso. rewrite ReporterDictFacts.getitem_KeyError in E.
      apply (E k w); [by apply pyItems_elem_2|done].
  - rewrite ReporterDictFacts.getitem_KeyError. split.
    + intros Hno. split.
      * apply (Hno key v). apply pyItems_elem_2, dict_setitem_elem; [done|by left].
      * intros k w Hin Hk. destruct (decide (k = key)) as [->|Hne].
        -- apply (Hno key v); [|done].
           apply pyItems_elem_2, dict_setitem_elem; [done|by left].
        -- apply (Hno k w); [|done].
           apply pyItems_elem_2, dict_setitem_elem; [done|by right].
    + intros [Hkey Hold] k w Hin Hk.
      apply pyItems_elem_1, dict_setitem_elem in Hin as [[-> ->]|[Hne Hin]];
        [done| |done].
      by apply (Hold k w).
  - intros w E.
    apply ReporterDictFacts.getitem_Ok in E as (i & k & Hi & Hk & _).
    exists k. split; [|done]. apply pyItems_elem_1. by eapply list_elem_of_lookup_2.
Qed.

End Registry.

Section Create.
Context `{Host}.
Implicit Types (s : State).

(** While no output callback is installed, which is so from loading until
    the first command that gets one, what the host reports changes
    nothing: no reporter records it. *)
Theorem hostEmit_before_install fuel msgs s :
  reachable s → messageIdSet s = false → hostEmit fuel msgs s = (Ok tt, s).
Proof.
  intros Hreach Hm. apply reachable_Inv in Hreach as [_ Hc].
  unfold cbInv in Hc. rewrite Hm in Hc. apply nil_length_inv in Hc.
  unfold hostEmit. induction msgs as [|m msgs IH]; [done|].
  simpl. unfold bind at 1, get. rewrite Hc. simpl.
  unfold bind at 1, ret. apply IH.
Qed.

(** With the callback installed, the host reporting a message is one call
    of [cmdCallback] for it, which returns or raises, and then the rest of
    the messages: no message is handed over twice, and an exception raised
    inside the callback stops at the host. *)
Theorem hostEmit_one_call fuel msg rest s :
  reachable s → messageIdSet s = true →
  ∃ o s',
    cmdCallback (S (S fuel)) msg s = (o, s')
    ∧ proper o
    ∧ hostEmit (S (S fuel)) (msg :: rest) s = hostEmit (S (S fuel)) rest s'.
Proof.
  intros Hreach Hm. apply reachable_Inv in Hreach as HI.
  pose proof HI as [_ Hc]. unfold cbInv in Hc. rewrite Hm in Hc.
  assert (InvL [] s) as HL by (split; [done|]; by intros a ?%elem_of_nil).
  pose proof (hoare_cmdCallback [] fuel msg s HL) as Hcb.
  destruct (cmdCallback (S (S fuel)) msg s) as [o s'] eqn:E.
  exists o, s'. split; [done|]. split; [by destruct o|].
  unfold hostEmit. set (cb := cmdCallback (S (S fuel))) in *.
  simpl deliver. unfold bind at 1, get. rewrite Hc.
  simpl times. unfold bind at 1. unfold bind at 1, hostCall. rewrite E.
  by destruct o as [[]|e| |].
Qed.

Lemma dict_setitem_here {V} (items : list (string * V)) key v :
  (key, v) ∈ dict_setitem items key v.
Proof.
  induction items as [|[k0 w0] items IH]; simpl; [by left|].
  destruct (decide (k0 = key)) as [->|Hne]; [by left|by right].
Qed.

Lemma dict_setitem_others {V} (items : list (string * V)) key v k w :
  k ≠ key → (k, w) ∈ dict_setitem items key v ↔ (k, w) ∈ items.
Proof.
  intros Hk. induction items as [|[k0 w0] items IH]; simpl.
  - rewrite list_elem_of_singleton. split; [by intros [= -> ->]|].
    by intros ?%elem_of_nil.
  - destruct (decide (k0 = key)) as [->|Hne].
    + rewrite !elem_of_cons. split; (intros [[= -> ->]|Hin]; [done|by right]).
    + rewrite !elem_of_cons, IH. done.
Qed.

(** Creating a reporter (neither [-q] nor [-e]) with well-typed flags. The
    host is asked once, for the scroll field, with the command
    [scrollField -wordWrap false -editable false "name"]; no object that
    existed is changed. When the host answers, a new object carries the
    host's answer as its name, the default filters updated by the filter
    flags given, and no history; the registry holds it under that name and
    is otherwise as before; [callbackState] is true; and the result is the
    name unless installing the callback fails. When the host raises, the
    command raises, the registry is as before, so no new reporter can be
    reached, no callback is installed, and [callbackState] stays false.
    Global flags on the command line change nothing in either case. *)
Theorem doIt_create fuel argData s flt gflt :
  isQuery argData = false → isEdit argData = false →
  collectFlags argData (pyItems filterFlags) ∅ = Ok flt →
  collectFlags argData (pyItems globalFilterFlags) ∅ = Ok gflt →
  ∃ o s' cmd,
    doIt (S fuel) argData s = (o, s')
    ∧ cmd = "scrollField -wordWrap false -editable false " +:+ dquote
            +:+ default kPluginCmdName (commandArgument0 argData) +:+ dquote
    ∧ issued s' = issued s ++ [cmd]
    ∧ globalFilters s' = globalFilters s
    ∧ (∀ a r, heap s !! a = Some r → heap s' !! a = Some r)
    ∧ match hostAnswer s cmd with
      | Some result =>
          heap s' = heap s ++ [mkReporter result (dict_update defaultFilters flt) []]
          ∧ (result, length (heap s)) ∈ reporters s'
          ∧ (∀ k a, k ≠ result → (k, a) ∈ reporters s' ↔ (k, a) ∈ reporters s)
          ∧ (NoDup (reporters s).*1 →
             ∀ a, (result, a) ∈ reporters s' → a = length (heap s))
          ∧ callbackState s' = true
          ∧ (messageIdSet s = true →
             o = Ok (PStr result) ∧ callbacks s' = callbacks s)
          ∧ (o = Ok (PStr result) ∨ o = Raise UnboundLocalError)
      | None =>
          o = Raise RuntimeError
          ∧ reporters s' = reporters s
          ∧ callbacks s' = callbacks s
          ∧ callbackState s' = false
      end.
Proof.
  intros Hq He Hflt Hgflt.
  set (nm := default kPluginCmdName (commandArgument0 argData)).
  rewrite <- (createCmd_text nm).
  unfold doIt, doIt_body. fold nm. rewrite Hq, He, Hflt, Hgflt.
  unfold bind at 1, lift. unfold bind at 1. unfold bind at 1. unfold bind at 1.
  rewrite Reporter_init_closed by apply cmdCallback_drops.
  assert (∀ x a r, heap s !! a = Some r → (heap s ++ [x]) !! a = Some r) as Hkeep.
  { intros x a r Hr. by apply lookup_app_l_Some. }
  destruct (hostAnswer s (createCmd nm)) as [result|] eqn:Ea.
  - unfold bind at 1, getObj. simpl heap. rewrite list_lookup_middle by done.
    unfold bind at 1, modify. unfold bind at 1, ret.
    unfold bind at 1. simpl heap. rewrite list_lookup_middle by done.
    rewrite installCallback_closed. simpl messageIdSet.
    assert (∀ a, NoDup (reporters s).*1 →
              (result, a) ∈ dict_setitem (reporters s) result (length (heap s)) →
              a = length (heap s)) as Honly.
    { intros a Hnd Hin.
      eapply NoDup_keys_value; [|exact Hin|apply dict_setitem_here].
      by apply dict_setitem_NoDup_keys. }
    destruct (messageIdSet s) eqn:Hm.
    + eexists _, _, _. split; [reflexivity|]. simpl. rewrite Ea.
      split_and!; auto using dict_setitem_here.
      intros k a Hk. by apply dict_setitem_others.
    + simpl host. destruct (hostAddCallback _) as [h' [id|]];
        eexists _, _, _; (split; [reflexivity|]); simpl; rewrite Ea;
        (split_and!; auto using dict_setitem_here; try done);
        intros k a Hk; by apply dict_setitem_others.
  - eexists _, _, _. split; [reflexivity|]. simpl. rewrite Ea. split_and!; auto.
Qed.

(** What [refreshHistory] would put in the widget after one more line is
    buffered is what it would have put there before, followed by the text
    that [appendHistory] inserts for the line; a line that [lineFilter]
    suppresses adds nothing. So inserting line by line and rendering the
    whole history agree. *)
Theorem refresh_after_append (flt : gmap string pyval) lines line out :
  refreshLoop flt lines "" = Ok out →
  refreshLoop flt (lines ++ [line]) ""
  = match lineFilter flt line with
    | Ok (Some t) => Ok (out +:+ t)
    | Ok None => Ok out
    | Raise TypeError => Ok out
    | Raise e => Raise e
    | OutOfFuel => OutOfFuel
    | Dangling => Dangling
    end.
Proof.
  generalize EmptyString. intros start. revert start.
  induction lines as [|l0 lines IH]; intros start Hout; simpl in *.
  - injection Hout as ->.
    by destruct (lineFilter flt line) as [[t|]|[]| |].
  - destruct (lineFilter flt l0) as [[t|]|[]| |]; try done; by apply IH.
Qed.

End Create.

Section Edit.
Context `{Host}.
Implicit Types (s : State) (d : ArgData).

Lemma collectFlags_lookup d table acc flt key :
  collectFlags d table acc = Ok flt →
  flt !! key
  = if decide (key ∈ table.*1)
    then match flagArgs d !! key with Some v => Some v | None => acc !! key end
    else acc !! key.
Proof.
  revert acc. induction table as [|[k [[sh ty] dflt]] table IH]; intros acc.
  - simpl. by intros [= <-].
  - simpl collectFlags.
    assert (∀ acc',
              acc' !! k = match flagArgs d !! k with
                          | Some w => Some w
                          | None => acc !! k
                          end →
              (∀ key', key' ≠ k → acc' !! key' = acc !! key') →
              collectFlags d table acc' = Ok flt →
              flt !! key
              = if decide (key ∈ k :: table.*1)
                then match flagArgs d !! key with
                     | Some v => Some v
                     | None => acc !! key
                     end
                else acc !! key) as Hstep.
    { intros acc' Hk Hother E. rewrite (IH _ E).
      destruct (decide (key = k)) as [->|Hne].
      - rewrite (decide_True (P := k ∈ k :: table.*1)) by (by left).
        rewrite Hk. by destruct (decide (k ∈ table.*1)), (flagArgs d !! k).
      - rewrite (Hother key Hne).
        destruct (decide (key ∈ table.*1)) as [Hin|Hin].
        + by rewrite decide_True by (by right).
        + rewrite decide_False; [done|]. by intros [?|?]%elem_of_cons. }
    unfold isFlagSet, flagArgumentBool, flagArgumentString.
    destruct (flagArgs d !! k) as [w|] eqn:Ek.
    + rewrite bool_decide_eq_true_2 by eauto.
      destruct ty, w as [|b|str]; try done; intros E;
        (eapply Hstep; [| |exact E]);
        [by rewrite lookup_insert_eq|by intros; rewrite lookup_insert_ne
        |by rewrite lookup_insert_eq|by intros; rewrite lookup_insert_ne].
    + rewrite bool_decide_eq_false_2 by (by intros [? ?]).
      intros E. by eapply Hstep.
Qed.

(** The flag-collecting loops of [doIt]: the dictionary they build holds
    exactly the flags of the table that are set on the command line, each
    with its argument; they raise, with [RuntimeError], only when a flag
    that is set has an argument of the other type. *)
Theorem collectFlags_spec d table :
  (∀ flt, collectFlags d table ∅ = Ok flt →
     ∀ key, flt !! key = if decide (key ∈ table.*1) then flagArgs d !! key
                         else None)
  ∧ ((∃ flt, collectFlags d table ∅ = Ok flt)
     ∨ collectFlags d table ∅ = Raise RuntimeError)
  ∧ ((∀ key sh ty dflt, (key, (sh, ty, dflt)) ∈ table →
        match ty, flagArgs d !! key with
        | _, None | kBoolean, Some (PBool _) | kString, Some (PStr _) => True
        | _, _ => False
        end) →
     ∃ flt, collectFlags d table ∅ = Ok flt).
Proof.
  split_and!.
  - intros flt E key. rewrite (collectFlags_lookup _ _ _ _ key E).
    rewrite lookup_empty. by destruct (decide _), (flagArgs d !! key).
  - generalize (∅ : gmap string pyval).
    induction table as [|[k [[sh ty] dflt]] table IH]; intros acc; simpl;
      [by left; eauto|].
    unfold flagArgumentBool, flagArgumentString.
    destruct (isFlagSet d k); [|apply IH].
    destruct ty, (flagArgs d !! k) as [[|b|str]|]; auto.
  - generalize (∅ : gmap string pyval).
    induction table as [|[k [[sh ty] dflt]] table IH]; intros acc Hty; simpl;
      [by eauto|].
    assert (∀ acc', ∃ flt, collectFlags d table acc' = Ok flt) as Hrest.
    { intros acc'. apply IH. intros key sh' ty' dflt' Hin.
      apply (Hty key sh' ty' dflt'). by right. }
    specialize (Hty k sh ty dflt (list_elem_of_here _ _)).
    unfold isFlagSet, flagArgumentBool, flagArgumentString.
    destruct (flagArgs d !! k) as [w|] eqn:Ek.
    + rewrite bool_decide_eq_true_2 by eauto.
      destruct ty, w as [|b|str]; try done; apply Hrest.
    + rewrite bool_decide_eq_false_2 by (by intros [? ?]). apply Hrest.
Qed.

Lemma hoare_lift_Ok {A B} (a : A) (P : State → Prop) (k : A → M B) Q E :
  hoare P (k a) Q E → hoare P (bind (lift (Ok a)) k) Q E.
Proof. done. Qed.

(** A query for a filter flag in one step. *)
Lemma query_filter_value fuel query s a r key v :
  isQuery query = true →
  ReporterDict_getitem (pyItems (reporters s))
    (default kPluginCmdName (commandArgument0 query)) = Ok a →
  heap s !! a = Some r →
  firstFlagSet query (pyItems filterFlags) = Some key →
  filters r !! key = Some v →
  doIt fuel query s = (Ok v, s).
Proof.
  intros Hq Ha Hr Hk Hv. unfold doIt, doIt_body. rewrite Hq.
  unfold bind at 1, lookupReporter, bind at 1, get, lift. rewrite Ha.
  unfold bind at 1, getObj. by rewrite Hr, Hk, Hv.
Qed.

(** A filter flag set by an edit ([-e]) of a known reporter is what a
    later query ([-q]) on the same name returns, when that flag is the one
    the query answers (the first that is set, as [filterFlags.items()]
    comes), and the query changes nothing; this is so whatever the edit's
    own outcome, since the filter is stored before the host is asked to
    show the result. Both commands find the same reporter, whichever of
    several keys the dictionary's order makes answer the name. *)
Theorem edit_then_query fuel fuel' edit query s key v o s' :
  reachable s →
  isQuery edit = false → isEdit edit = true → isQuery query = true →
  commandArgument0 query = commandArgument0 edit →
  (∃ a, ReporterDict_getitem (pyItems (reporters s))
          (default kPluginCmdName (commandArgument0 edit)) = Ok a) →
  (∃ flt, collectFlags edit (pyItems filterFlags) ∅ = Ok flt) →
  (∃ gflt, collectFlags edit (pyItems globalFilterFlags) ∅ = Ok gflt) →
  flagArgs edit !! key = Some v →
  firstFlagSet query (pyItems filterFlags) = Some key →
  doIt (S fuel) edit s = (o, s') →
  doIt fuel' query s' = (Ok v, s').
Proof.
  intros Hreach He1 He2 Hq Hnm [a Ha] [flt Hflt] [gflt Hgflt] Hv Hk Hrun.
  pose proof (reachable_Inv s Hreach) as HI.
  pose proof (firstFlagSet_table _ _ _ Hk) as Hkey.
  assert (flt !! key = Some v) as Hfv.
  { rewrite (collectFlags_lookup _ _ _ _ key Hflt).
    rewrite decide_True by done. by rewrite Hv. }
  assert (a < length (heap s))%nat as Hlt.
  { destruct HI as [(_ & _ & Hval & _) _]. apply Hval.
    apply getitem_elem in Ha. by rewrite pyItems_values in Ha. }
  destruct (lookup_lt_is_Some_2 _ _ Hlt) as [r Hr].
  set (nm := default kPluginCmdName (commandArgument0 edit)) in *.
  set (J := λ s0 : State,
         reporters s0 = reporters s
         ∧ ∃ r', heap s0 !! a = Some r' ∧ filters r' !! key = Some v).
  assert (∀ s0 s1 : State,
            J s0 → heap s1 = heap s0 → reporters s1 = reporters s0 →
            callbacks s1 = callbacks s0 → messageIdSet s1 = messageIdSet s0 →
            messageId s1 = messageId s0 → globalFilters s1 = globalFilters s0 →
            cmdReporter s1 = cmdReporter s0 → J s1) as J_frame.
  { intros s0 s1 [HR Hh] Eh Er _ _ _ _ _. unfold J. by rewrite Eh, Er. }
  assert (∀ s0 flt0, Inv s0 → J s0 →
            J (set_globalFilters (dict_update (globalFilters s0) flt0) s0))
    as J_globals by (by intros s0 flt0 _ HJ).
  assert (∀ s0 h' id, Inv s0 → J s0 → messageIdSet s0 = false →
            J (set_messageId id
                 (set_messageIdSet true
                    (set_callbacks (callbacks s0 ++ [id]) (set_host h' s0)))))
    as J_install by (by intros s0 h' id _ HJ _).
  set (cb := cmdCallback (S fuel)).
  assert (drops cb) as Hcb by apply cmdCallback_drops.
  assert (a ∈ [a]) as Hin by (by left).
  assert (∀ s0, InvJ J [a] s0 → J s0) as Hdown by (by intros s0 [_ HJ]).
  assert (hoare (λ s0, s0 = s) (doIt_body cb edit) (λ _, J) J) as Hh.
  { unfold doIt_body. fold nm. rewrite He1, He2, Hflt, Hgflt.
    apply hoare_lift_Ok, hoare_lift_Ok.
    apply (hoare_post _ _ (λ _, InvJ J [a]) _ (InvJ J [a]));
      [intros _; apply Hdown|apply Hdown|].
    eapply hoare_bind with (Q := λ a', λ s0, a' = a ∧ InvJ J [a] s0).
    - eapply hoare_bind with (Q := λ a', λ s0, a' = a ∧ s0 = s).
      { intros s0 ->. unfold lookupReporter, bind, get, lift. by rewrite Ha. }
      intros a'. eapply hoare_bind with (Q := λ _ s0, a' = a ∧ InvJ J [a] s0).
      { rewrite bool_decide_eq_false_2
          by (intros ->; by rewrite lookup_empty in Hfv).
        intros s0 [-> ->]. unfold setFilters, bind at 1, getObj. rewrite Hr.
        unfold bind at 1, setObj. rewrite decide_True by done.
        set (r' := mkReporter (name r) (dict_update (filters r) flt) (history r)).
        assert (InvJ J [a] (set_heap (<[a := r']> (heap s)) s)) as Hstart.
        { split.
          - eapply InvL_update; [|done|].
            + split; [done|]. by intros a0 ->%list_elem_of_singleton.
            + simpl. apply wf_filters_update.
              eapply (InvL_filters []); [|done]. split; [done|].
              by intros a0 ?%elem_of_nil.
          - split; [done|]. exists r'. simpl.
            rewrite list_lookup_insert_eq by done. split; [done|].
            by rewrite dict_update_lookup, Hfv. }
        pose proof (G_refreshHistory J J_frame [a] cb a Hcb Hin _ Hstart) as Hrf.
        destruct (refreshHistory cb a _) as [[[]|e| |] s1]; try done. }
      intros ?. eapply hoare_bind with (Q := λ _ s0, a' = a ∧ InvJ J [a] s0).
      { intros s0 [-> HJ0].
        destruct (bool_decide (gflt = ∅)); [done|].
        pose proof (G_setGlobalFilters J J_frame J_globals [a] cb a gflt Hcb s0 HJ0)
          as Hg.
        destruct (setGlobalFilters cb a gflt s0) as [[[]|e| |] s1]; done. }
      intros ?. eapply hoare_bind with (Q := λ _ s0, a' = a ∧ InvJ J [a] s0);
        [|intros ?; by apply hoare_ret].
      intros s0 [-> HJ0].
      destruct (isFlagSet edit kClear.1).
      { pose proof (G_clear J J_frame [a] cb a Hcb Hin s0 HJ0) as Hc.
        destruct (clear cb a s0) as [[[]|e| |] s1]; done. }
      destruct (isFlagSet edit kText.1).
      { unfold bind, lift.
        pose proof (flagArgumentString_proper edit kText.1) as Hp.
        destruct (flagArgumentString edit kText.1) as [t|e| |]; try done.
        pose proof (G_text J J_frame [a] cb a t Hcb Hin s0 HJ0) as Hc.
        destruct (text cb a t s0) as [[[]|e| |] s1]; done. }
      destruct (isFlagSet edit kCmdReporter.1); [|done].
      unfold bind, lift.
      pose proof (flagArgumentString_proper edit kCmdReporter.1) as Hp.
      by destruct (flagArgumentString edit kCmdReporter.1) as [t|e| |].
    - intros a'. apply hoare_getObj_bind.
      { intros s0 [-> HJ0]. eapply InvJ_valid; [exact HJ0|done]. }
      intros reporter. eapply hoare_bind with (Q := λ _, InvJ J [a]).
      + eapply hoare_weaken; [|apply (G_installCallback J J_frame J_install [a])].
        by intros s0 [[_ ?] _].
      + intros ?. by apply hoare_ret. }
  specialize (Hh s eq_refl). unfold doIt in Hrun. fold cb in Hrun.
  rewrite Hrun in Hh.
  assert (J s') as [HR (r' & Hr' & Hfr)] by (by destruct o).
  eapply query_filter_value; [done| |done..].
  by rewrite Hnm, HR.
Qed.

Lemma join_empty_cons x l : join EmptyString (x :: l) = x +:+ join EmptyString l.
Proof. destruct l; [by rewrite append_nil_r|done]. Qed.

(** The flag text is the pieces [-key 1 ] and [-key 0 ], one for each
    item, in the order of the items. *)
Lemma globalFlagsText_pieces (items : list (string * pyval)) :
  globalFlagsText items
  = join EmptyString
      ((λ kv, "-" +:+ kv.1 +:+ " " +:+ (if truthy kv.2 then "1" else "0") +:+ " ")
         <$> items).
Proof.
  unfold globalFlagsText.
  assert (∀ acc,
            foldl (λ flags kv,
                     flags +:+ "-" +:+ kv.1 +:+ " "
                           +:+ (if truthy kv.2 then "1" else "0") +:+ " ")
                  acc items
            = acc +:+ join EmptyString
                        ((λ kv, "-" +:+ kv.1 +:+ " "
                                +:+ (if truthy kv.2 then "1" else "0") +:+ " ")
                           <$> items)) as Hgen; [|apply Hgen].
  induction items as [|kv items IH]; intros acc.
  - simpl. by rewrite append_nil_r.
  - rewrite fmap_cons, join_empty_cons. simpl foldl. rewrite IH.
    by rewrite append_assoc.
Qed.

(** [setGlobalFilters] does three things in this order: it appends the
    command line to the output file, hands the command to the host, and
    updates [Reporter.globalFilters]. The command is
    [cmdScrollFieldReporter -e flags "reporter";], where [flags] holds
    [-key 1 ] or [-key 0 ] for each keyword, in the order in which the
    keyword dictionary is iterated, and [reporter] is
    [Reporter.cmdReporter] as [%s] prints it. When the file cannot be
    written it raises [IOError] and nothing else has happened; when the host
    raises, the global filters are as before and [callbackState] is left
    false; when both succeed [getGlobalFilter] returns the new value of
    every key given, and every other key has its old value. The reporter it
    is called on plays no part, and no reporter object changes. *)
Theorem setGlobalFilters_spec fuel a flt s :
  ∃ o s' flags cmd,
    setGlobalFilters (cmdCallback (S fuel)) a flt s = (o, s')
    ∧ flags = join EmptyString
                ((λ kv, "-" +:+ kv.1 +:+ " "
                        +:+ (if truthy kv.2 then "1" else "0") +:+ " ")
                   <$> pyItems (map_to_list flt))
    ∧ cmd = "cmdScrollFieldReporter -e " +:+ flags +:+ " " +:+ dquote
            +:+ match cmdReporter s with
                | PNone => "None"
                | PBool true => "True"
                | PBool false => "False"
                | PStr name => name
                end
            +:+ dquote +:+ ";"
    ∧ heap s' = heap s ∧ reporters s' = reporters s
    ∧ match hostFileAppend (host s) "/var/tmp/commandOutput"
              (cmd +:+ String "010"%char EmptyString) with
      | None => o = Raise IOError ∧ s' = s
      | Some h' =>
          issued s' = issued s ++ [cmd]
          ∧ match hostAnswer (set_host h' s) cmd with
            | Some _ =>
                o = Ok tt ∧ callbackState s' = true
                ∧ (∀ key v, flt !! key = Some v →
                     getGlobalFilter key s' = (Ok v, s'))
                ∧ (∀ key, flt !! key = None →
                     globalFilters s' !! key = globalFilters s !! key)
            | None =>
                o = Raise RuntimeError ∧ callbackState s' = false
                ∧ globalFilters s' = globalFilters s
            end
      end.
Proof.
  unfold setGlobalFilters, bind at 1, get.
  unfold bind at 1, writeOutputFile, bind at 1, get.
  set (cmd := globalFiltersCmd (globalFlagsText (pyItems (map_to_list flt)))
                (cmdReporter s)).
  assert (cmd = "cmdScrollFieldReporter -e "
                +:+ join EmptyString
                      ((λ kv, "-" +:+ kv.1 +:+ " "
                              +:+ (if truthy kv.2 then "1" else "0") +:+ " ")
                         <$> pyItems (map_to_list flt))
                +:+ " " +:+ dquote
                +:+ match cmdReporter s with
                    | PNone => "None"
                    | PBool true => "True"
                    | PBool false => "False"
                    | PStr name => name
                    end
                +:+ dquote +:+ ";")
    as Hcmd.
  { unfold cmd. rewrite globalFiltersCmd_text, globalFlagsText_pieces.
    by destruct (cmdReporter s) as [|[]|]. }
  change (String "010"%char EmptyString) with nl.
  destruct (hostFileAppend (host s) "/var/tmp/commandOutput" (cmd +:+ nl))
    as [h'|] eqn:Ef.
  - unfold modify. unfold bind at 1.
    rewrite executeCommand_drops by apply cmdCallback_drops.
    destruct (hostAnswer (set_host h' s) cmd) as [res|] eqn:Ea.
    + eexists _, _, _, cmd. split; [reflexivity|]. split; [reflexivity|].
      split; [exact Hcmd|]. rewrite Ef. simpl. rewrite Ea.
      split_and!; try done.
      * intros key v Hv. unfold getGlobalFilter, bind, get. simpl.
        by rewrite dict_update_lookup, Hv.
      * intros key Hv. by rewrite dict_update_lookup, Hv.
    + eexists _, _, _, cmd. split; [reflexivity|]. split; [reflexivity|].
      split; [exact Hcmd|]. rewrite Ef. simpl. rewrite Ea. by split_and!.
  - eexists _, _, _, cmd. split; [reflexivity|]. split; [reflexivity|].
    split; [exact Hcmd|]. by rewrite Ef.
Qed.

(** The shape of every reachable state: registry keys are distinct and
    name distinct, allocated objects; every reporter object has all the
    keys of [filterFlags] in its filters; [Reporter.globalFilters] has its
    three keys; and the installed output callbacks are the one recorded in
    [messageId] when [messageIdSet] holds, and none otherwise. *)
Theorem reachable_state_shape s :
  reachable s →
  NoDup (reporters s).*1 ∧ NoDup (reporters s).*2
  ∧ (∀ key a, (key, a) ∈ reporters s → is_Some (heap s !! a))
  ∧ (∀ a r key, heap s !! a = Some r → key ∈ filterFlags.*1 →
       is_Some (filters r !! key))
  ∧ (∀ key, key ∈ globalFilterFlags.*1 → is_Some (globalFilters s !! key))
  ∧ callbacks s = (if messageIdSet s then [messageId s] else []).
Proof.
  intros Hreach.
  pose proof (reachable_ids s Hreach) as ([(Hk & Ha & Hv & _) Hc] & Hid & Hg).
  split_and!; [done..| |by apply reachable_filters|done|].
  - intros key a Hin. apply lookup_lt_is_Some_2, Hv.
    apply list_elem_of_fmap. by exists (key, a).
  - unfold cbInv in Hc. destruct (messageIdSet s) eqn:Hm; [by apply Hid|].
    by apply nil_length_inv.
Qed.

End Edit.

(** [created] is a state the module can be in. *)
Lemma reachable_created : @reachable echoHost created.
Proof.
  exists tt. apply rtc_once.
  eapply (@step_doIt echoHost 2 createRep); [lia|]. apply surjective_pairing.
Qed.

Lemma doIt_query_witness : ∃ v, @doIt echoHost 1 queryRep created = (Ok v, created).
Proof.
  destruct (@doIt_query echoHost 1 queryRep created reachable_created eq_refl)
    as [_ Hfound].
  assert (ReporterDict_getitem (@reporters echoHost created)
            (default kPluginCmdName (commandArgument0 queryRep)) = Ok 0%nat) as Ha
    by (vm_compute; reflexivity).
  destruct (Hfound 0%nat Ha) as (r & _ & Hflt & _).
  assert (firstFlagSet queryRep filterFlags = Some "suppressInfo"%string) as Hk
    by (vm_compute; reflexivity).
  destruct (Hflt _ Hk) as (v & _ & E). by exists v.
Defined.

Lemma uninitializePlugin_spec_witness :
  ∃ o s',
    @uninitializePlugin echoHost (λ _ _, Some tt) (λ _ _, Some tt) created = (o, s')
    ∧ (o = Ok tt → @callbacks echoHost s' = []).
Proof.
  destruct (@uninitializePlugin_spec echoHost (λ _ _, Some tt) (λ _ _, Some tt)
              created reachable_created)
    as (o & s' & E & _ & _ & _ & Hc & _).
  exists o, s'. exact (conj E Hc).
Defined.

Lemma hostEmit_before_install_witness :
  @hostEmit echoHost 2 [("ls;"%string, kHistory)] (@initial echoHost tt)
  = (Ok tt, @initial echoHost tt).
Proof.
  apply (@hostEmit_before_install echoHost); [|reflexivity].
  exists tt. apply rtc_refl.
Defined.

Lemma hostEmit_one_call_witness :
  ∃ o s',
    @cmdCallback echoHost 2 ("ls;"%string, kHistory) created = (o, s')
    ∧ @hostEmit echoHost 2 [("ls;"%string, kHistory)] created
      = @hostEmit echoHost 2 [] s'.
Proof.
  assert (@messageIdSet echoHost created = true) as Hm by (vm_compute; reflexivity).
  destruct (@hostEmit_one_call echoHost 0 ("ls;"%string, kHistory) [] created
              reachable_created Hm)
    as (o & s' & E & _ & Hd).
  exists o, s'. exact (conj E Hd).
Defined.

Lemma doIt_create_witness :
  ∃ o s',
    @doIt echoHost 1 createRep (@initial echoHost tt) = (o, s')
    ∧ @issued echoHost s'
      = ["scrollField -wordWrap false -editable false " +:+ dquote
         +:+ "rep" +:+ dquote].
Proof.
  destruct (@doIt_create echoHost 0 createRep (@initial echoHost tt) ∅ ∅
              eq_refl eq_refl eq_refl eq_refl)
    as (o & s' & cmd & E & -> & Hi & _).
  exists o, s'. exact (conj E Hi).
Defined.

(** A reporter stored as [a|rep] beside an older [b|rep] is found by its
    full name. *)
Lemma setitem_then_getitem_witness :
  ReporterDict_getitem
    (@pyItems echoHost _ (dict_setitem [("b|rep"%string, 1%nat)] "a|rep" 2%nat))
    "a|rep"
  = Ok 2%nat.
Proof.
  destruct (@setitem_then_getitem echoHost nat [("b|rep"%string, 1%nat)]
              "a|rep"%string 2%nat "a|rep"%string (NoDup_singleton _))
    as (_ & Hone & _).
  apply (Hone "a|rep"%string 2%nat).
  - vm_compute. right. left.
  - vm_compute. by exists [].
  - intros k' w' Hin Hk. vm_compute in Hin.
    apply elem_of_cons in Hin as [[= -> ->]|Hin].
    + exfalso. revert Hk. apply (bool_decide_unpack _). vm_compute. exact I.
    + apply elem_of_cons in Hin as [[= -> ->]|Hin]; [done|].
      by apply elem_of_nil in Hin.
Defined.

Lemma refresh_after_append_witness :
  refreshLoop defaultFilters ([] ++ [mkLine kResult None "r" None]) ""
  = match lineFilter defaultFilters (mkLine kResult None "r" None) with
    | Ok (Some t) => Ok ("" +:+ t)
    | Ok None => Ok ""%string
    | Raise TypeError => Ok ""%string
    | Raise e => Raise e
    | OutOfFuel => OutOfFuel
    | Dangling => Dangling
    end.
Proof. apply refresh_after_append. reflexivity. Defined.

Lemma edit_then_query_witness :
  @doIt echoHost 1 queryRep (@doIt echoHost 1 editRep created).2
  = (Ok (PBool true), (@doIt echoHost 1 editRep created).2).
Proof.
  apply (@edit_then_query echoHost 0 1 editRep queryRep created
           "suppressInfo" (PBool true) (@doIt echoHost 1 editRep created).1).
  - exact reachable_created.
  - reflexivity.
  - reflexivity.
  - reflexivity.
  - reflexivity.
  - exists 0%nat. vm_compute. reflexivity.
  - eexists. vm_compute. reflexivity.
  - eexists. vm_compute. reflexivity.
  - vm_compute. reflexivity.
  - vm_compute. reflexivity.
  - apply surjective_pairing.
Defined.

Lemma reachable_state_shape_witness :
  @callbacks echoHost created
  = if @messageIdSet echoHost created then [@messageId echoHost created] else [].
Proof.
  destruct (@reachable_state_shape echoHost created reachable_created)
    as (_ & _ & _ & _ & _ & Hc).
  exact Hc.
Defined.

(** Two reachable states over [echoHost]: after one reporter has been
    created, and after the host has then reported a result. *)
Lemma steps_keep_all_witness :
  keepsAll
    (@doIt echoHost 2 (mkArgData (Some "rep"%string) false false ∅)
       (@initial echoHost tt)).2
    (@hostEmit echoHost 2 [("1"%string, kResult)]
       (@doIt echoHost 2 (mkArgData (Some "rep"%string) false false ∅)
          (@initial echoHost tt)).2).2.
Proof.
  apply (@steps_keep_all echoHost).
  - exists tt. apply rtc_once.
    eapply (@step_doIt echoHost 2 (mkArgData (Some "rep"%string) false false ∅));
      [lia|]. apply surjective_pairing.
  - apply rtc_once. eapply (@step_emit echoHost 2 [("1"%string, kResult)]); [lia|].
    apply surjective_pairing.
Defined.

End ReporterMore.
